(** * Vouch web-prover client: header helpers, proof client and artifact sink

    A shallow embedding of [scripts/vouch-client.ts].  JavaScript strings are
    sequences of UTF-16 code units, optional fields are [option]s, arrays are
    lists, and the effects of the client (network, file system, standard
    output, clock) are the nodes of a small command tree. *)

From Stdlib Require Import Ascii String DecimalString.
From Stdlib Require Import List ZArith NArith Lia Bool Sorted Permutation.
Import ListNotations.

Set Implicit Arguments.
Set Warnings "-register-all".

(** ** JavaScript strings *)

Module JS.

(** A string value: the list of its UTF-16 code units. *)
Definition jsstring := list N.

(** An ASCII literal as a string value. *)
Definition js (s : string) : jsstring := map N_of_ascii (list_ascii_of_string s).
Arguments js s%_string.

Fixpoint strEq (a b : jsstring) : bool :=
  match a, b with
  | [], [] => true
  | x :: a', y :: b' => N.eqb x y && strEq a' b'
  | _, _ => false
  end.

(** [WhiteSpace] and [LineTerminator] of ECMA-262, the code units that
    [String.prototype.trim] strips. *)
Definition isWhiteSpace (c : N) : bool :=
  ((9 <=? c) && (c <=? 13)            (* TAB, LF, VT, FF, CR *)
   || (c =? 32) || (c =? 160)         (* SP, NBSP *)
   || (c =? 5760)                     (* U+1680 *)
   || ((8192 <=? c) && (c <=? 8202))  (* U+2000 .. U+200A *)
   || (c =? 8232) || (c =? 8233)      (* LS, PS *)
   || (c =? 8239) || (c =? 8287)      (* U+202F, U+205F *)
   || (c =? 12288) || (c =? 65279))%N (* U+3000, U+FEFF *).

Fixpoint trimStart (s : jsstring) : jsstring :=
  match s with
  | [] => []
  | c :: s' => if isWhiteSpace c then trimStart s' else s
  end.

Definition trimEnd (s : jsstring) : jsstring := rev (trimStart (rev s)).

(** [s.trim()] *)
Definition trim (s : jsstring) : jsstring := trimEnd (trimStart s).

(** [s.startsWith(search)] *)
Fixpoint startsWith (s search : jsstring) {struct search} : bool :=
  match search with
  | [] => true
  | y :: search' =>
      match s with
      | [] => false
      | x :: s' => N.eqb x y && startsWith s' search'
      end
  end.

Fixpoint indexOfFrom (search s : jsstring) (i : Z) : Z :=
  if startsWith s search then i
  else match s with
       | [] => (-1)%Z
       | _ :: s' => indexOfFrom search s' (i + 1)
       end.

(** [s.indexOf(search)]: the position of the first occurrence, or [-1]. *)
Definition indexOf (s search : jsstring) : Z := indexOfFrom search s 0.

(** [s.slice(start, end)], [end] being optional; negative positions count
    from the end of the string. *)
Definition slice (s : jsstring) (start : Z) (end_ : option Z) : jsstring :=
  let len := Z.of_nat (length s) in
  let rel i := (if i <? 0 then Z.max (len + i) 0 else Z.min i len)%Z in
  let from := rel start in
  let to := match end_ with None => len | Some e => rel e end in
  firstn (Z.to_nat (to - from)) (skipn (Z.to_nat from) s).

(** Truthiness of a string that may be [undefined] or [null]: only a
    non-empty string is truthy. *)
Definition truthy (x : option jsstring) : bool :=
  match x with
  | Some (_ :: _) => true
  | _ => false
  end.

(** [x || d] on an optional string. *)
Definition orElse (x : option jsstring) (d : jsstring) : jsstring :=
  match x with
  | Some (c :: s) => c :: s
  | _ => d
  end.

(** [a.push(x)] on an array held by value. *)
Definition push {A : Type} (a : list A) (x : A) : list A := a ++ [x].

(** [s.replace(/[:.]/g, '-')] *)
Definition replaceColonDot (s : jsstring) : jsstring :=
  map (fun c => if ((c =? 58) || (c =? 46))%N then 45%N else c) s.

(** [String(n)] for a non-negative integer [n]. *)
Definition decimal (n : N) : jsstring :=
  js (NilEmpty.string_of_uint (N.to_uint n)).

(** The ASCII part of [String.prototype.toLowerCase]; it agrees with the
    runtime on strings of ASCII code units. *)
Definition asciiToLowerCase (s : jsstring) : jsstring :=
  map (fun c => if ((65 <=? c) && (c <=? 90))%N then (c + 32)%N else c) s.

End JS.
Import JS.

(** ** Header helpers *)

Record BuildHeadersOptions := {
  authToken : option jsstring;
  cookies : option jsstring;
  accept : option jsstring;
  (** the entries of the record, in [Object.entries] order *)
  additionalHeaders : option (list (jsstring * jsstring));
}.

(** The options of [buildHeadersWithRedaction]: those of [buildHeaders] and
    two optional name lists. *)
Record RedactionOptions := {
  base : BuildHeadersOptions;
  sensitiveHeaders : option (list jsstring);
  excludeFromRedaction : option (list jsstring);
}.

Record RequestRedaction := { headers : option (list jsstring) }.
Record HeaderRedaction := { request : option RequestRedaction }.

Record HeadersWithRedaction := {
  hwr_headers : list jsstring;
  hwr_redaction : list HeaderRedaction;
}.

Section Headers.

(** [String.prototype.toLowerCase] of the runtime (full Unicode case
    mapping). *)
Variable toLowerCase : jsstring -> jsstring.

Definition sanitizeHeader (header : jsstring) : option jsstring :=
  let trimmed := trim header in
  if negb (truthy (Some trimmed)) then None else
  let colonIndex := indexOf trimmed (js ":") in
  if (colonIndex =? -1)%Z then None else
  let name := trim (slice trimmed 0 (Some colonIndex)) in
  let value := trim (slice trimmed (colonIndex + 1) None) in
  if negb (truthy (Some name)) || negb (truthy (Some value)) then None else
  if startsWith name (js ":") then None else
  if strEq (toLowerCase name) (js "accept-encoding") then None else
  Some (name ++ js ": " ++ value).

(** The token placed in the [Authorization] header. *)
Definition bearer (authToken : jsstring) : jsstring :=
  if startsWith authToken (js "Bearer ") then authToken
  else js "Bearer " ++ authToken.

Definition buildHeaders (options : BuildHeadersOptions) : list jsstring :=
  let headers : list jsstring := [] in
  let headers :=
    push headers (js "Accept: " ++ orElse (accept options) (js "application/json")) in
  let headers :=
    match authToken options with
    | Some (c :: t) => push headers (js "Authorization: " ++ bearer (c :: t))
    | _ => headers
    end in
  let headers :=
    match cookies options with
    | Some (c :: k) => push headers (js "Cookie: " ++ (c :: k))
    | _ => headers
    end in
  match additionalHeaders options with
  | Some entries =>
      fold_left
        (fun headers '(name, value) =>
           let sanitized := sanitizeHeader (name ++ js ": " ++ value) in
           if truthy sanitized then push headers (orElse sanitized []) else headers)
        entries headers
  | None => headers
  end.

Definition defaultSensitive : list jsstring :=
  [js "authorization"; js "cookie"; js "x-api-key"].

(** [set.has(x)] *)
Definition has (set : list jsstring) (x : jsstring) : bool :=
  existsb (strEq x) set.

Definition excludeSet (options : RedactionOptions) : list jsstring :=
  map toLowerCase
      (match excludeFromRedaction options with Some l => l | None => [] end).

Definition shouldRedact (options : RedactionOptions) (headerName : jsstring) : bool :=
  let lower := toLowerCase headerName in
  if has (excludeSet options) lower then false else
  if has defaultSensitive lower then true else
  match sensitiveHeaders options with
  | Some l => if existsb (fun h => strEq (toLowerCase h) lower) l then true else false
  | None => false
  end.

(** The two arrays the builder fills, in the order it fills them. *)
Definition redactStep (options : RedactionOptions)
    (st : list jsstring * list jsstring) (entry : jsstring * jsstring)
    : list jsstring * list jsstring :=
  let '(headers, redactHeaders) := st in
  let '(name, value) := entry in
  let sanitized := sanitizeHeader (name ++ js ": " ++ value) in
  if truthy sanitized then
    (push headers (orElse sanitized []),
     if shouldRedact options name then push redactHeaders name else redactHeaders)
  else (headers, redactHeaders).

Definition buildHeadersWithRedaction (options : RedactionOptions)
    : HeadersWithRedaction :=
  let o := base options in
  let headers : list jsstring := [] in
  let redactHeaders : list jsstring := [] in
  let headers :=
    push headers (js "Accept: " ++ orElse (accept o) (js "application/json")) in
  let '(headers, redactHeaders) :=
    match authToken o with
    | Some (c :: t) =>
        (push headers (js "Authorization: " ++ bearer (c :: t)),
         if shouldRedact options (js "Authorization")
         then push redactHeaders (js "Authorization") else redactHeaders)
    | _ => (headers, redactHeaders)
    end in
  let '(headers, redactHeaders) :=
    match cookies o with
    | Some (c :: k) =>
        (push headers (js "Cookie: " ++ (c :: k)),
         if shouldRedact options (js "Cookie")
         then push redactHeaders (js "Cookie") else redactHeaders)
    | _ => (headers, redactHeaders)
    end in
  let '(headers, redactHeaders) :=
    match additionalHeaders o with
    | Some entries => fold_left (redactStep options) entries (headers, redactHeaders)
    | None => (headers, redactHeaders)
    end in
  let redaction : list HeaderRedaction :=
    if (0 <? length redactHeaders)%nat
    then [ {| request := Some {| headers := Some redactHeaders |} |} ]
    else [] in
  {| hwr_headers := headers; hwr_redaction := redaction |}.

End Headers.

(** ** JSON values and [JSON.stringify] *)

Module Json.

(** A value as [response.json()] yields it and [JSON.stringify] prints it.
    Numbers are the integers (below 10^21 in absolute value, where the
    runtime prints them in plain decimal). *)
Inductive JSONValue : Type :=
| JNull
| JBool (b : bool)
| JNumber (z : Z)
| JString (s : jsstring)
| JArray (items : list JSONValue)
| JObject (members : list (jsstring * JSONValue)).

(** Truthiness of a value in a condition. *)
Definition truthyValue (v : JSONValue) : bool :=
  match v with
  | JNull => false
  | JBool b => b
  | JNumber z => negb (z =? 0)%Z
  | JString s => truthy (Some s)
  | JArray _ | JObject _ => true
  end.

Definition hexDigit (d : N) : N :=
  (if d <? 10 then 48 + d else 87 + d)%N.

(** [UnicodeEscape]: backslash, [u] and four lower-case hexadecimal digits. *)
Definition unicodeEscape (c : N) : jsstring :=
  [92; 117;
   hexDigit ((c / 4096) mod 16); hexDigit ((c / 256) mod 16);
   hexDigit ((c / 16) mod 16); hexDigit (c mod 16)]%N.

Definition isLeadingSurrogate (c : N) : bool := ((55296 <=? c) && (c <=? 56319))%N.
Definition isTrailingSurrogate (c : N) : bool := ((56320 <=? c) && (c <=? 57343))%N.

Definition quoteUnit (c : N) : jsstring :=
  (if c =? 8 then [92; 98]
   else if c =? 9 then [92; 116]
   else if c =? 10 then [92; 110]
   else if c =? 12 then [92; 102]
   else if c =? 13 then [92; 114]
   else if c =? 34 then [92; 34]
   else if c =? 92 then [92; 92]
   else if (c <? 32) || isLeadingSurrogate c || isTrailingSurrogate c
        then unicodeEscape c
   else [c])%N.

Fixpoint quoteUnits (s : jsstring) : jsstring :=
  match s with
  | [] => []
  | c :: s' =>
      if isLeadingSurrogate c then
        match s' with
        | d :: s'' =>
            if isTrailingSurrogate d then c :: d :: quoteUnits s''
            else quoteUnit c ++ quoteUnits s'
        | [] => quoteUnit c
        end
      else quoteUnit c ++ quoteUnits s'
  end.

(** [QuoteJSONString] *)
Definition quoteJSONString (s : jsstring) : jsstring :=
  [34%N] ++ quoteUnits s ++ [34%N].

Definition numberToString (z : Z) : jsstring :=
  if (z <? 0)%Z then js "-" ++ decimal (Z.abs_N z) else decimal (Z.to_N z).

Fixpoint join (sep : jsstring) (parts : list jsstring) : jsstring :=
  match parts with
  | [] => []
  | [p] => p
  | p :: rest => p ++ sep ++ join sep rest
  end.

(** Brackets around the already serialized elements of an array or
    members of an object. *)
Definition wrap (open_ close gap stepback indent : jsstring)
    (partial : list jsstring) : jsstring :=
  match partial with
  | [] => open_ ++ close
  | _ =>
      match gap with
      | [] => open_ ++ join (js ",") partial ++ close
      | _ =>
          open_ ++ [10%N] ++ indent
            ++ join (js "," ++ [10%N] ++ indent) partial
            ++ [10%N] ++ stepback ++ close
      end
  end.

(** [SerializeJSONProperty] with no replacer. *)
Fixpoint serialize (gap indent : jsstring) (v : JSONValue) : jsstring :=
  match v with
  | JNull => js "null"
  | JBool true => js "true"
  | JBool false => js "false"
  | JNumber z => numberToString z
  | JString s => quoteJSONString s
  | JArray items =>
      wrap (js "[") (js "]") gap indent (indent ++ gap)
           (map (serialize gap (indent ++ gap)) items)
  | JObject members =>
      wrap (js "{") (js "}") gap indent (indent ++ gap)
           (map (fun member =>
                   match member with
                   | (k, x) =>
                       quoteJSONString k ++ js ":"
                         ++ match gap with [] => [] | _ => js " " end
                         ++ serialize gap (indent ++ gap) x
                   end) members)
  end.

(** [JSON.stringify(value, null, space)] for a numeric [space]. *)
Definition stringify (v : JSONValue) (space : N) : jsstring :=
  serialize (repeat 32%N (N.to_nat (N.min 10 space))) [] v.

End Json.
Import Json.

(** ** Effects *)

Record RequestInit := {
  init_method : jsstring;
  init_headers : list (jsstring * jsstring);
  init_body : jsstring;
}.

(** What the client reads of a fetch [Response]: the status, the body as
    [text()] resolves it, and the body as [json()] resolves it ([None] when
    the runtime rejects it as malformed). *)
Record Response := {
  status : N;
  text : jsstring;
  json : option JSONValue;
}.

(** [response.ok] *)
Definition ok (r : Response) : bool := ((200 <=? status r) && (status r <=? 299))%N.

Inductive exn : Type :=
| Error (message : jsstring)   (* [throw new Error(message)] of the client *)
| RuntimeError.                (* raised by the runtime: network, file system, JSON *)

(** A computation of the client: it returns, throws, or asks the runtime for
    one effect and goes on with the answer. *)
Inductive io (A : Type) : Type :=
| Ret (a : A)
| Throw (e : exn)
| StdoutWrite (chunk : jsstring) (k : io A)
| ExistsSync (p : jsstring) (k : bool -> io A)
| MkdirSync (p : jsstring) (k : io A)
| WriteFileSync (p data : jsstring) (k : io A)
| NowISO (k : jsstring -> io A)
| Fetch (url : jsstring) (init : RequestInit) (k : Response -> io A).

Arguments Ret {A} a.
Arguments Throw {A} e.
Arguments StdoutWrite {A} chunk k.
Arguments ExistsSync {A} p k.
Arguments MkdirSync {A} p k.
Arguments WriteFileSync {A} p data k.
Arguments NowISO {A} k.
Arguments Fetch {A} url init k.

Fixpoint bind {A B : Type} (c : io A) (f : A -> io B) : io B :=
  match c with
  | Ret a => f a
  | Throw e => Throw e
  | StdoutWrite chunk k => StdoutWrite chunk (bind k f)
  | ExistsSync p k => ExistsSync p (fun b => bind (k b) f)
  | MkdirSync p k => MkdirSync p (bind k f)
  | WriteFileSync p data k => WriteFileSync p data (bind k f)
  | NowISO k => NowISO (fun iso => bind (k iso) f)
  | Fetch url init k => Fetch url init (fun r => bind (k r) f)
  end.

Notation "x <- c ;; k" := (bind c (fun x => k))
  (at level 61, c at next level, right associativity).
Notation "c ;; k" := (bind c (fun _ => k))
  (at level 61, right associativity).

Definition stdoutWrite (chunk : jsstring) : io unit := StdoutWrite chunk (Ret tt).
Definition existsSync (p : jsstring) : io bool := ExistsSync p Ret.
Definition mkdirSync (p : jsstring) : io unit := MkdirSync p (Ret tt).
Definition writeFileSync (p data : jsstring) : io unit := WriteFileSync p data (Ret tt).
Definition nowISO : io jsstring := NowISO Ret.
Definition fetch (url : jsstring) (init : RequestInit) : io Response := Fetch url init Ret.

(** [if (c) { body }] *)
Definition when (c : bool) (body : io unit) : io unit :=
  if c then body else Ret tt.

(** One effect together with the answer of the runtime. *)
Inductive event : Type :=
| EvStdout (chunk : jsstring)
| EvExists (p : jsstring) (answer : bool)
| EvMkdir (p : jsstring) (done : bool)
| EvWrite (p data : jsstring) (done : bool)
| EvNow (iso : jsstring)
| EvFetch (url : jsstring) (init : RequestInit) (answer : option Response).

Inductive outcome (A : Type) : Type :=
| Returned (a : A)
| Threw (e : exn).

Arguments Returned {A} a.
Arguments Threw {A} e.

(** [runs c tr out]: a run of [c] in which the runtime answers as [tr]
    records ends with [out].  A file-system call or a fetch the runtime
    refuses raises [RuntimeError]. *)
Inductive runs {A : Type} : io A -> list event -> outcome A -> Prop :=
| run_ret a : runs (Ret a) [] (Returned a)
| run_throw e : runs (Throw e) [] (Threw e)
| run_stdout chunk k tr out :
    runs k tr out -> runs (StdoutWrite chunk k) (EvStdout chunk :: tr) out
| run_exists p k b tr out :
    runs (k b) tr out -> runs (ExistsSync p k) (EvExists p b :: tr) out
| run_mkdir p k tr out :
    runs k tr out -> runs (MkdirSync p k) (EvMkdir p true :: tr) out
| run_mkdir_fails p k :
    runs (MkdirSync p k) [EvMkdir p false] (Threw RuntimeError)
| run_write p data k tr out :
    runs k tr out -> runs (WriteFileSync p data k) (EvWrite p data true :: tr) out
| run_write_fails p data k :
    runs (WriteFileSync p data k) [EvWrite p data false] (Threw RuntimeError)
| run_now k iso tr out :
    runs (k iso) tr out -> runs (NowISO k) (EvNow iso :: tr) out
| run_fetch url init k r tr out :
    runs (k r) tr out -> runs (Fetch url init k) (EvFetch url init (Some r) :: tr) out
| run_fetch_fails url init k :
    runs (Fetch url init k) [EvFetch url init None] (Threw RuntimeError).

(** ** Proof client *)

Definition PROVE_URL : jsstring := js "https://web-prover.vlayer.xyz/api/v1/prove".
Definition VERIFY_URL : jsstring := js "https://web-prover.vlayer.xyz/api/v1/verify".

Record VouchCredentials := {
  clientId : jsstring;
  secretToken : jsstring;
}.

Record WebProofRequest := {
  req_url : jsstring;
  req_method : jsstring;
  req_headers : list jsstring;
  maxRecvData : option Z;
  redaction : option (list HeaderRedaction);
}.

(** A proof and a verification result are the values the service sent; the
    client never looks inside them. *)
Definition WebProof := JSONValue.
Definition VerificationResult := JSONValue.

Definition strings (l : list jsstring) : JSONValue := JArray (map JString l).

(** A redaction descriptor as [JSON.stringify] sees it: absent fields are
    skipped. *)
Definition redactionValue (r : HeaderRedaction) : JSONValue :=
  JObject
    match request r with
    | None => []
    | Some q =>
        [(js "request",
          JObject match headers q with
                  | None => []
                  | Some l => [(js "headers", strings l)]
                  end)]
    end.

Definition requestBody (request : WebProofRequest) : JSONValue :=
  let body :=
    [(js "url", JString (req_url request));
     (js "method", JString (req_method request));
     (js "headers", strings (req_headers request))] in
  let body :=
    match maxRecvData request with
    | Some n => push body (js "maxRecvData", JNumber n)
    | None => body
    end in
  let body :=
    match redaction request with
    | Some (r :: l) => push body (js "redaction", JArray (map redactionValue (r :: l)))
    | _ => body
    end in
  JObject body.

Definition apiHeaders (credentials : VouchCredentials) : list (jsstring * jsstring) :=
  [(js "Content-Type", js "application/json");
   (js "x-client-id", clientId credentials);
   (js "Authorization", js "Bearer " ++ secretToken credentials)].

(** [await response.json()] *)
Definition responseJson (response : Response) : io JSONValue :=
  match json response with
  | Some v => Ret v
  | None => Throw RuntimeError
  end.

Definition generateWebProof (credentials : VouchCredentials)
    (request : WebProofRequest) : io WebProof :=
  response <- fetch PROVE_URL
                {| init_method := js "POST";
                   init_headers := apiHeaders credentials;
                   init_body := stringify (requestBody request) 0 |} ;;
  if negb (ok response) then
    let errorText := text response in
    Throw (Error (js "Vouch API error (" ++ decimal (status response)
                    ++ js "): " ++ errorText))
  else responseJson response.

Definition verifyWebProof (credentials : VouchCredentials)
    (proof : WebProof) : io VerificationResult :=
  response <- fetch VERIFY_URL
                {| init_method := js "POST";
                   init_headers := apiHeaders credentials;
                   init_body := stringify proof 0 |} ;;
  if negb (ok response) then
    let errorText := text response in
    Throw (Error (js "Verification API error (" ++ decimal (status response)
                    ++ js "): " ++ errorText))
  else responseJson response.

(** ** Artifact sink *)

Inductive OutputMode : Type := file | stdout | return_.

Record ProofArtifactPaths := {
  proofPath : jsstring;
  verificationPath : jsstring;
}.

Record ProofArtifactOutput := {
  out_mode : OutputMode;
  out_paths : option ProofArtifactPaths;
  out_json : option jsstring;
}.

Record OutputOptions := {
  mode : OutputMode;
  outputDir : option jsstring;
  prefix : option jsstring;
  includeVerification : option bool;
  pretty : option bool;
}.

(** A destructuring default: it replaces [undefined] only. *)
Definition withDefault {A : Type} (x : option A) (d : A) : A :=
  match x with
  | Some a => a
  | None => d
  end.

Section Sink.

(** [path.join] of the runtime. *)
Variable path_join : jsstring -> jsstring -> jsstring.

Definition outputProofArtifacts (proof : WebProof)
    (verification : VerificationResult) (output : OutputOptions)
    : io ProofArtifactOutput :=
  let pretty := withDefault (pretty output) true in
  let includeVerification := withDefault (includeVerification output) true in
  let indent : N := if pretty then 2%N else 0%N in
  let combinedOutput :=
    if includeVerification
    then JObject [(js "proof", proof); (js "verification", verification)]
    else JObject [(js "proof", proof)] in
  match mode output with
  | stdout =>
      let json := stringify combinedOutput indent in
      stdoutWrite (json ++ [10%N]) ;;
      Ret {| out_mode := stdout; out_paths := None; out_json := None |}
  | return_ =>
      let json := stringify combinedOutput indent in
      Ret {| out_mode := return_; out_paths := None; out_json := Some json |}
  | file =>
      let prefix := withDefault (prefix output) (js "proof") in
      if negb (truthy (outputDir output)) then
        Throw (Error (js "outputDir is required for file output mode"))
      else
        let outputDir := orElse (outputDir output) [] in
        present <- existsSync outputDir ;;
        when (negb present) (mkdirSync outputDir) ;;
        iso <- nowISO ;;
        let timestamp := replaceColonDot iso in
        let proofPath :=
          path_join outputDir (prefix ++ js "-" ++ timestamp ++ js ".json") in
        let verificationPath :=
          path_join outputDir
                    (prefix ++ js "-verification-" ++ timestamp ++ js ".json") in
        writeFileSync proofPath (stringify proof indent) ;;
        when (truthyValue verification && includeVerification)
             (writeFileSync verificationPath (stringify verification indent)) ;;
        Ret {| out_mode := file;
               out_paths := Some {| proofPath := proofPath;
                                    verificationPath := verificationPath |};
               out_json := None |}
  end.

End Sink.

(** [path.join(dir, name)] for a directory name already in normal form and
    a plain file name (POSIX). *)
Definition joinPlain (dir name : jsstring) : jsstring := dir ++ js "/" ++ name.

(** An executable runtime: every effect is answered by an oracle. *)
Record world := {
  fsExists : jsstring -> bool;
  fsMkdir : jsstring -> bool;
  fsWrite : jsstring -> jsstring -> bool;
  clock : jsstring;
  network : jsstring -> RequestInit -> option Response;
}.

Fixpoint exec {A : Type} (w : world) (c : io A) : list event * outcome A :=
  match c with
  | Ret a => ([], Returned a)
  | Throw e => ([], Threw e)
  | StdoutWrite chunk k =>
      let '(tr, out) := exec w k in (EvStdout chunk :: tr, out)
  | ExistsSync p k =>
      let '(tr, out) := exec w (k (fsExists w p)) in
      (EvExists p (fsExists w p) :: tr, out)
  | MkdirSync p k =>
      if fsMkdir w p
      then let '(tr, out) := exec w k in (EvMkdir p true :: tr, out)
      else ([EvMkdir p false], Threw RuntimeError)
  | WriteFileSync p data k =>
      if fsWrite w p data
      then let '(tr, out) := exec w k in (EvWrite p data true :: tr, out)
      else ([EvWrite p data false], Threw RuntimeError)
  | NowISO k =>
      let '(tr, out) := exec w (k (clock w)) in (EvNow (clock w) :: tr, out)
  | Fetch url init k =>
      match network w url init with
      | Some r => let '(tr, out) := exec w (k r) in (EvFetch url init (Some r) :: tr, out)
      | None => ([EvFetch url init None], Threw RuntimeError)
      end
  end.

(** ** Vocabulary of the specification *)

Definition colon : N := 58.

(** The text before the first colon (all of it when there is none) and the
    text after it. *)
Fixpoint beforeColon (s : jsstring) : jsstring :=
  match s with
  | [] => []
  | c :: s' => if (c =? colon)%N then [] else c :: beforeColon s'
  end.

Fixpoint afterColon (s : jsstring) : jsstring :=
  match s with
  | [] => []
  | c :: s' => if (c =? colon)%N then s' else afterColon s'
  end.

(** The name of a header string [Name: value]. *)
Definition headerName (h : jsstring) : jsstring := beforeColon h.

(** [hay] contains [needle]. *)
Definition includes (hay needle : jsstring) : Prop :=
  exists pre post, hay = pre ++ needle ++ post.

Definition whitespace (s : jsstring) : Prop :=
  Forall (fun c => isWhiteSpace c = true) s.

Section HeaderVocabulary.

Variable toLowerCase : jsstring -> jsstring.

(** Two names match case-insensitively. *)
Definition sameName (a b : jsstring) : Prop := toLowerCase a = toLowerCase b.

(** The conditions under which the sanitizer is said to reject. *)
Definition rejected (h : jsstring) : Prop :=
  trim h = []
  \/ ~ In colon h
  \/ trim (beforeColon h) = []
  \/ trim (afterColon h) = []
  \/ startsWith (trim (beforeColon h)) (js ":") = true
  \/ toLowerCase (trim (beforeColon h)) = js "accept-encoding".

(** The header the sanitizer is said to re-emit. *)
Definition normalized (h : jsstring) : jsstring :=
  trim (beforeColon h) ++ js ": " ++ trim (afterColon h).

(** A name is sensitive: by default, or by the caller's list. *)
Definition sensitive (options : RedactionOptions) (n : jsstring) : Prop :=
  In (toLowerCase n) defaultSensitive
  \/ exists h, In h (withDefault (sensitiveHeaders options) []) /\ sameName h n.

Definition excluded (options : RedactionOptions) (n : jsstring) : Prop :=
  exists h, In h (withDefault (excludeFromRedaction options) []) /\ sameName h n.

(** The names listed by the redaction descriptors of a result. *)
Definition redactionNames (r : HeadersWithRedaction) : list jsstring :=
  flat_map (fun d => match request d with
                     | Some q => withDefault (headers q) []
                     | None => []
                     end) (hwr_redaction r).

(** The additional entries the sanitizer accepts, in order. *)
Definition accepted (entries : list (jsstring * jsstring))
    : list (jsstring * jsstring) :=
  filter (fun e => truthy (sanitizeHeader toLowerCase (fst e ++ js ": " ++ snd e)))
         entries.

(** The headers the redaction-aware builder classifies, each with the name
    it is classified under: the Authorization and Cookie headers and the
    accepted additional headers, under their keys. *)
Definition classified (options : RedactionOptions) : list (jsstring * jsstring) :=
  let o := base options in
  (if truthy (authToken o)
   then [(js "Authorization", js "Authorization: " ++ bearer (orElse (authToken o) []))]
   else [])
  ++ (if truthy (cookies o)
      then [(js "Cookie", js "Cookie: " ++ orElse (cookies o) [])]
      else [])
  ++ map (fun e => (fst e, orElse (sanitizeHeader toLowerCase (fst e ++ js ": " ++ snd e)) []))
         (accepted (withDefault (additionalHeaders o) [])).

(** The additional headers that are emitted: each entry sanitized, the
    rejected ones dropped, in the order of the entries. *)
Fixpoint sanitizedEntries (entries : list (jsstring * jsstring)) : list jsstring :=
  match entries with
  | [] => []
  | (name, value) :: rest =>
      match sanitizeHeader toLowerCase (name ++ js ": " ++ value) with
      | Some s => s :: sanitizedEntries rest
      | None => sanitizedEntries rest
      end
  end.

(** The Authorization and Cookie headers, present when the field is a
    non-empty string. *)
Definition authorizationHeader (o : BuildHeadersOptions) : list jsstring :=
  match authToken o with
  | Some (c :: t) => [js "Authorization: " ++ bearer (c :: t)]
  | _ => []
  end.

Definition cookieHeader (o : BuildHeadersOptions) : list jsstring :=
  match cookies o with
  | Some (c :: k) => [js "Cookie: " ++ (c :: k)]
  | _ => []
  end.

(** The names the builder lists: the classified names that are to be
    redacted, in emission order. *)
Definition listed (options : RedactionOptions) : list jsstring :=
  filter (shouldRedact toLowerCase options) (map fst (classified options)).

(** The reading of the redaction rule over every emitted header: a returned
    header's name is listed exactly when it is sensitive and not excluded. *)
Definition listedIffSensitive (options : RedactionOptions) : Prop :=
  let r := buildHeadersWithRedaction toLowerCase options in
  forall h, In h (hwr_headers r) ->
    (In (headerName h) (redactionNames r)
     <-> sensitive options (headerName h) /\ ~ excluded options (headerName h)).

(** Every listed name is the name of a returned header: some returned
    header is the name, a colon, a space and a value. *)
Definition listedArePresent (r : HeadersWithRedaction) : Prop :=
  forall n, In n (redactionNames r) ->
    exists value, In (n ++ js ": " ++ value) (hwr_headers r).

End HeaderVocabulary.

(** ** Effects: vocabulary *)

(** A run of [c] whose first effect is a fetch answered with [response]
    ends with [out]. *)
Definition answered {A : Type} (c : io A) (response : Response)
    (out : outcome A) : Prop :=
  exists url init rest, runs c (EvFetch url init (Some response) :: rest) out.

(** The operation failed, and the failure detail holds the status code in
    decimal and the body text. *)
Definition reportsFailure {A : Type} (response : Response) (out : outcome A) : Prop :=
  exists detail,
    out = Threw (Error detail)
    /\ includes detail (decimal (status response))
    /\ includes detail (text response).

Definition withMode (m : OutputMode) (o : OutputOptions) : OutputOptions :=
  {| mode := m; outputDir := outputDir o; prefix := prefix o;
     includeVerification := includeVerification o; pretty := pretty o |}.

(** The text handed back in the [json] field by a computation that returns
    at once, and the text a computation first writes on standard output. *)
Definition returnedText (c : io ProofArtifactOutput) : option jsstring :=
  match c with
  | Ret r => out_json r
  | _ => None
  end.

Definition emittedText (c : io ProofArtifactOutput) : option jsstring :=
  match c with
  | StdoutWrite chunk _ => Some chunk
  | _ => None
  end.

(** The reading of the equality of the two modes: the text the return mode
    hands back is the text the stdout mode writes. *)
Definition sameText (path_join : jsstring -> jsstring -> jsstring)
    (proof : WebProof) (verification : VerificationResult)
    (output : OutputOptions) : Prop :=
  returnedText (outputProofArtifacts path_join proof verification
                  (withMode return_ output))
  = emittedText (outputProofArtifacts path_join proof verification
                   (withMode stdout output)).

(** The paths of the files a run wrote. *)
Fixpoint written (tr : list event) : list jsstring :=
  match tr with
  | [] => []
  | EvWrite p _ true :: tr' => p :: written tr'
  | _ :: tr' => written tr'
  end.

(** ** Sample inputs *)

Definition noOptions : BuildHeadersOptions :=
  {| authToken := None; cookies := None; accept := None; additionalHeaders := None |}.

Definition forbidden : Response :=
  {| status := 403; text := js "forbidden"; json := None |}.

Definition sampleRequest : WebProofRequest :=
  {| req_url := js "https://api.example.com/data"; req_method := js "GET";
     req_headers := [js "Accept: application/json"];
     maxRecvData := None; redaction := None |}.

Definition sampleCredentials : VouchCredentials :=
  {| clientId := js "client"; secretToken := js "secret" |}.

Definition sampleProof : WebProof :=
  JObject [(js "data", JString (js "01ab"));
           (js "version", JString (js "0.1.0"));
           (js "meta", JObject [(js "notaryUrl", JString (js "https://notary.test"))])].

Definition sampleOutput (m : OutputMode) (dir : option jsstring) : OutputOptions :=
  {| mode := m; outputDir := dir; prefix := None;
     includeVerification := None; pretty := Some false |}.

(** A runtime with an empty file system in which every call succeeds. *)
Definition sampleWorld : world :=
  {| fsExists := fun _ => false;
     fsMkdir := fun _ => true;
     fsWrite := fun _ _ => true;
     clock := js "2026-01-02T03:04:05.678Z";
     network := fun _ _ => None |}.

(** ** Further operations *)

(** [s.split(sep)] for a separator of one code unit. *)
Fixpoint splitUnit (s : jsstring) (sep : N) : list jsstring :=
  match s with
  | [] => [[]]
  | c :: s' =>
      if (c =? sep)%N then [] :: splitUnit s' sep
      else match splitUnit s' sep with
           | piece :: pieces => (c :: piece) :: pieces
           | [] => [[c]]
           end
  end.

Record SkipOptions := { skipHeaders : option (list jsstring) }.

Definition defaultSkip : list jsstring :=
  [js "accept-encoding"; js "connection"; js "host";
   js ":authority"; js ":method"; js ":path"; js ":scheme"].

Section HeaderConversion.

Variable toLowerCase : jsstring -> jsstring.

(** The skip set: the seven fixed names, then the caller's, as given. *)
Definition skipSet (options : option SkipOptions) : list jsstring :=
  defaultSkip
    ++ match options with
       | Some o => withDefault (skipHeaders o) []
       | None => []
       end.

Definition headersObjectToArray (headers : list (jsstring * jsstring))
    (options : option SkipOptions) : list jsstring :=
  let skip := skipSet options in
  fold_left
    (fun result '(name, value) =>
       if has skip (toLowerCase name) then result
       else if startsWith name (js ":") then result
       else
         let sanitized := sanitizeHeader toLowerCase (name ++ js ": " ++ value) in
         if truthy sanitized then push result (orElse sanitized []) else result)
    headers [].

End HeaderConversion.

(** *** Generate and verify in one step *)

Record ProofAndVerification := {
  pv_proof : WebProof;
  pv_verification : VerificationResult;
  responseData : JSONValue;
}.

(** [v[key]] on a value that is not [null], for a key that names no
    built-in property: the member of an object (its keys are distinct),
    [undefined] otherwise. *)
Fixpoint lookup (members : list (jsstring * JSONValue)) (key : jsstring)
    : option JSONValue :=
  match members with
  | [] => None
  | (k, v) :: rest => if strEq k key then Some v else lookup rest key
  end.

Definition member (v : JSONValue) (key : jsstring) : option JSONValue :=
  match v with
  | JObject members => lookup members key
  | _ => None
  end.

(** [v?.[key]]: [undefined] when [v] is [undefined] or [null]. *)
Definition optionalMember (v : option JSONValue) (key : jsstring) : option JSONValue :=
  match v with
  | None | Some JNull => None
  | Some x => member x key
  end.

Section GenerateAndVerify.

(** [JSON.parse] of the runtime ([None] when it throws) and its [ToString]
    on the values that are not strings. *)
Variable JSON_parse : jsstring -> option JSONValue.
Variable ToString : JSONValue -> jsstring.

Definition toStringValue (v : JSONValue) : jsstring :=
  match v with
  | JString s => s
  | _ => ToString v
  end.

(** [verification.response?.body], for a verification that is not [null]. *)
Definition responseBody (verification : VerificationResult) : option JSONValue :=
  optionalMember (member verification (js "response")) (js "body").

(** The response data: [null], or the body parsed when it is truthy, or the
    body itself when parsing throws. *)
Definition dataOfBody (body : option JSONValue) : JSONValue :=
  match body with
  | Some b =>
      if truthyValue b then
        match JSON_parse (toStringValue b) with
        | Some data => data
        | None => b
        end
      else JNull
  | None => JNull
  end.

(** The body of [generateAndVerifyProof] after the two calls; reading a
    property of [null] throws. *)
Definition extractResponseData (verification : VerificationResult)
    : io JSONValue :=
  match verification with
  | JNull => Throw RuntimeError
  | _ => Ret (dataOfBody (responseBody verification))
  end.

Definition generateAndVerifyProof (client : VouchCredentials)
    (request : WebProofRequest) : io ProofAndVerification :=
  proof <- generateWebProof client request ;;
  verification <- verifyWebProof client proof ;;
  responseData <- extractResponseData verification ;;
  Ret {| pv_proof := proof; pv_verification := verification;
         responseData := responseData |}.

End GenerateAndVerify.

(** *** Convenience wrappers of the sink *)

Section SinkWrappers.

Variable path_join : jsstring -> jsstring -> jsstring.

(** The result is [result.paths], asserted to be defined. *)
Definition persistProofArtifacts (proof : WebProof)
    (verification : VerificationResult) (outputDir : jsstring)
    (prefix : option jsstring) : io (option ProofArtifactPaths) :=
  result <- outputProofArtifacts path_join proof verification
              {| mode := file; outputDir := Some outputDir; prefix := prefix;
                 includeVerification := None; pretty := None |} ;;
  Ret (out_paths result).

Definition outputToStdout (proof : WebProof) (verification : VerificationResult)
    (includeVerification pretty : option bool) : io unit :=
  outputProofArtifacts path_join proof verification
    {| mode := stdout; outputDir := None; prefix := None;
       includeVerification := includeVerification; pretty := pretty |} ;;
  Ret tt.

End SinkWrappers.

(** *** Command line of the examples *)

Record CliOptions := {
  command : jsstring;
  outputMode : OutputMode;
  cli_outputDir : option jsstring;   (* [None] is [undefined] *)
  quiet : bool;
  args : list jsstring;
}.

Definition setOutputMode (o : CliOptions) (m : OutputMode) : CliOptions :=
  {| command := command o; outputMode := m; cli_outputDir := cli_outputDir o;
     quiet := quiet o; args := args o |}.

Definition setQuiet (o : CliOptions) (q : bool) : CliOptions :=
  {| command := command o; outputMode := outputMode o;
     cli_outputDir := cli_outputDir o; quiet := q; args := args o |}.

Definition setOutputDir (o : CliOptions) (d : option jsstring) : CliOptions :=
  {| command := command o; outputMode := outputMode o; cli_outputDir := d;
     quiet := quiet o; args := args o |}.

Definition setCommand (o : CliOptions) (c : jsstring) (a : list jsstring) : CliOptions :=
  {| command := c; outputMode := outputMode o; cli_outputDir := cli_outputDir o;
     quiet := quiet o; args := a |}.

(** The loop over [argv]; [argv[++i]] takes the next argument with it. *)
Fixpoint parseLoop (argv : list jsstring) (options : CliOptions)
    (positional : list jsstring) : CliOptions * list jsstring :=
  match argv with
  | [] => (options, positional)
  | arg :: rest =>
      if strEq arg (js "--stdout") || strEq arg (js "--json") then
        parseLoop rest (setOutputMode options stdout) positional
      else if strEq arg (js "--quiet") || strEq arg (js "-q") then
        parseLoop rest (setQuiet options true) positional
      else if strEq arg (js "--output-dir") || strEq arg (js "-o") then
        match rest with
        | next :: rest' =>
            parseLoop rest'
              (setOutputDir options (Some (orElse (Some next) (js "./proofs"))))
              positional
        | [] => (setOutputDir options (Some (js "./proofs")), positional)
        end
      else if startsWith arg (js "--output-dir=") then
        parseLoop rest
          (setOutputDir options (nth_error (splitUnit arg 61%N) 1)) positional
      else if negb (startsWith arg (js "-")) then
        parseLoop rest options (push positional arg)
      else parseLoop rest options positional
  end.

Definition cliDefaults : CliOptions :=
  {| command := js "help"; outputMode := file;
     cli_outputDir := Some (js "./proofs"); quiet := false; args := [] |}.

Definition parseArgs (argv : list jsstring) : CliOptions :=
  let '(options, positional) := parseLoop argv cliDefaults [] in
  match positional with
  | first :: others => setCommand options first others
  | [] => options
  end.

(** The output options every example passes to the sink. *)
Definition cliOutput (options : CliOptions) (prefix : jsstring) : OutputOptions :=
  {| mode := outputMode options; outputDir := cli_outputDir options;
     prefix := Some prefix; includeVerification := None; pretty := None |}.

(** *** Vocabulary of the further properties *)

(** An argument that takes the next one as its value. *)
Definition takesValue (arg : jsstring) : bool :=
  strEq arg (js "--output-dir") || strEq arg (js "-o").

Definition isStdoutFlag (arg : jsstring) : bool :=
  strEq arg (js "--stdout") || strEq arg (js "--json").

Definition isQuietFlag (arg : jsstring) : bool :=
  strEq arg (js "--quiet") || strEq arg (js "-q").

Definition isPositional (arg : jsstring) : bool := negb (startsWith arg (js "-")).

(** A key that is a bare header name: trimmed and without a colon. *)
Definition bareKey (k : jsstring) : Prop := trim k = k /\ ~ In colon k.

(** The code units [A] to [Z]. *)
Definition isUpperAscii (c : N) : bool := ((65 <=? c) && (c <=? 90))%N.

(** The file-system effects of a run. *)
Definition isFileEvent (e : event) : bool :=
  match e with
  | EvExists _ _ | EvMkdir _ _ | EvWrite _ _ _ => true
  | _ => false
  end.

(** The fetches of a run, with the address and the body sent. *)
Fixpoint fetched (tr : list event) : list (jsstring * jsstring) :=
  match tr with
  | [] => []
  | EvFetch url init _ :: tr' => (url, init_body init) :: fetched tr'
  | _ :: tr' => fetched tr'
  end.

(** A parser that rejects every text, and a rendering of no use: enough to
    run the client where no body is parsed. *)
Definition parseNothing (text : jsstring) : option JSONValue := None.
Definition renderNothing (v : JSONValue) : jsstring := [].

(** Options with the additional headers replaced. *)
Definition withEntries (o : BuildHeadersOptions)
    (entries : list (jsstring * jsstring)) : BuildHeadersOptions :=
  {| authToken := authToken o; cookies := cookies o; accept := accept o;
     additionalHeaders := Some entries |}.

(** The entries of a header object that the conversion does not skip. *)
Definition kept (toLowerCase : jsstring -> jsstring) (options : option SkipOptions)
    (headers : list (jsstring * jsstring)) : list (jsstring * jsstring) :=
  filter (fun e => negb (has (skipSet options) (toLowerCase (fst e)))
                   && negb (startsWith (fst e) (js ":")))
         headers.

(** A header object as a browser yields it. *)
Definition browserHeaders : list (jsstring * jsstring) :=
  [(js "Host", js "api.example.com"); (js "X-Trace", js "abc");
   (js "User-Agent", js "curl/8")].

Definition traceEntries : list (jsstring * jsstring) :=
  [(js "X-Trace", js "  abc "); (js "X-Empty", js "   ")].

(** How a call of the service ends, given the answer to its one request:
    the parsed body for a success status, the error with the label of the
    call otherwise, a failure of the runtime when there is no answer or no
    JSON in it. *)
Definition callOutcome (label : jsstring) (answer : option Response)
    : outcome JSONValue :=
  match answer with
  | None => Threw RuntimeError
  | Some r =>
      if ok r then
        match json r with
        | Some v => Returned v
        | None => Threw RuntimeError
        end
      else Threw (Error (label ++ decimal (status r) ++ js "): " ++ text r))
  end.

(** The request of a call: a POST with the JSON content type, the client
    identifier and the bearer token. *)
Definition callInit (credentials : VouchCredentials) (body : jsstring) : RequestInit :=
  {| init_method := js "POST";
     init_headers :=
       [(js "Content-Type", js "application/json");
        (js "x-client-id", clientId credentials);
        (js "Authorization", js "Bearer " ++ secretToken credentials)];
     init_body := body |}.

Definition sampleVerification : VerificationResult :=
  JObject [(js "success", JBool true);
           (js "serverDomain", JString (js "api.example.com"));
           (js "response",
            JObject [(js "status", JNumber 200);
                     (js "body", JString (js "not json"))])].

Definition answerWith (v : JSONValue) : Response :=
  {| status := 200; text := []; json := Some v |}.

(** A service that answers the prove address with the sample proof and any
    other address with the given verification. *)
Definition serviceWorld (verification : JSONValue) : world :=
  {| fsExists := fun _ => false;
     fsMkdir := fun _ => true;
     fsWrite := fun _ _ => true;
     clock := js "2026-01-02T03:04:05.678Z";
     network := fun url _ =>
       if strEq url PROVE_URL then Some (answerWith sampleProof)
       else Some (answerWith verification) |}.

(** A service that refuses every request with 403. *)
Definition refusingWorld : world :=
  {| fsExists := fun _ => false;
     fsMkdir := fun _ => true;
     fsWrite := fun _ _ => true;
     clock := js "2026-01-02T03:04:05.678Z";
     network := fun _ _ => Some forbidden |}.

(** The text of [s] before its first [sep]. *)
Fixpoint untilUnit (sep : N) (s : jsstring) : jsstring :=
  match s with
  | [] => []
  | c :: s' => if (c =? sep)%N then [] else c :: untilUnit sep s'
  end.

(** An argument of the form [--output-dir=...]. *)
Definition isAssignment (arg : jsstring) : bool := startsWith arg (js "--output-dir=").

(** Two option records that agree on everything but the directory. *)
Definition sameButDir (a b : CliOptions) : Prop :=
  command a = command b /\ outputMode a = outputMode b
  /\ quiet a = quiet b /\ args a = args b.

(** A runtime whose file system refuses to create directories. *)
Definition readOnlyWorld : world :=
  {| fsExists := fun _ => false;
     fsMkdir := fun _ => false;
     fsWrite := fun _ _ => true;
     clock := js "2026-01-02T03:04:05.678Z";
     network := fun _ _ => None |}.

(** Options with the token replaced. *)
Definition withToken (o : BuildHeadersOptions) (token : jsstring) : BuildHeadersOptions :=
  {| authToken := Some token; cookies := cookies o; accept := accept o;
     additionalHeaders := additionalHeaders o |}.

(** The request a caller makes of what the redaction-aware builder
    returned. *)
Definition requestOf (url method : jsstring) (r : HeadersWithRedaction)
    : WebProofRequest :=
  {| req_url := url; req_method := method; req_headers := hwr_headers r;
     maxRecvData := None; redaction := Some (hwr_redaction r) |}.

(** *** The order of the properties of an object *)

(** The value of a string of decimal digits; [None] when a code unit is not
    a digit. *)
Fixpoint digitsValue (acc : N) (s : jsstring) : option N :=
  match s with
  | [] => Some acc
  | c :: s' =>
      if ((48 <=? c) && (c <=? 57))%N
      then digitsValue (10 * acc + (c - 48)) s'
      else None
  end.

(** A key that is an array index: the canonical decimal form of an integer
    below 2^32 - 1. *)
Definition arrayIndex (key : jsstring) : option N :=
  match key with
  | [] => None
  | _ :: _ =>
      match digitsValue 0 key with
      | Some n =>
          if strEq (decimal n) key && (n <? 4294967295)%N then Some n else None
      | None => None
      end
  end.

Definition isIndexKey (e : jsstring * jsstring) : bool :=
  match arrayIndex (fst e) with
  | Some _ => true
  | None => false
  end.

Fixpoint insertIndexed (i : N) (e : jsstring * jsstring)
    (l : list (N * (jsstring * jsstring))) : list (N * (jsstring * jsstring)) :=
  match l with
  | [] => [(i, e)]
  | (j, f) :: l' =>
      if (i <=? j)%N then (i, e) :: (j, f) :: l'
      else (j, f) :: insertIndexed i e l'
  end.

(** The order of two indexed properties. *)
Definition byIndex (a b : N * (jsstring * jsstring)) : Prop := (fst a <= fst b)%N.

(** The properties whose key is an array index, by ascending index. *)
Fixpoint indexedEntries (props : list (jsstring * jsstring))
    : list (N * (jsstring * jsstring)) :=
  match props with
  | [] => []
  | e :: rest =>
      match arrayIndex (fst e) with
      | Some i => insertIndexed i e (indexedEntries rest)
      | None => indexedEntries rest
      end
  end.

(** The other properties, in the order of their creation. *)
Definition namedEntries (props : list (jsstring * jsstring))
    : list (jsstring * jsstring) :=
  filter (fun e => negb (isIndexKey e)) props.

(** [Object.entries(o)] for an object whose own properties are [props], in
    the order of their creation (the keys are distinct): the array-index
    keys in ascending order, then the other keys as created. *)
Definition objectEntries (props : list (jsstring * jsstring))
    : list (jsstring * jsstring) :=
  map snd (indexedEntries props) ++ namedEntries props.

(** Options whose additional headers are the given object, if any. *)
Definition withMapping (o : BuildHeadersOptions)
    (mapping : option (list (jsstring * jsstring))) : BuildHeadersOptions :=
  {| authToken := authToken o; cookies := cookies o; accept := accept o;
     additionalHeaders := option_map objectEntries mapping |}.

(** The reading of the order of the additional headers as the order in
    which the mapping was filled. *)
Definition emitsInInsertionOrder (toLowerCase : jsstring -> jsstring)
    (o : BuildHeadersOptions) (mapping : option (list (jsstring * jsstring)))
    : Prop :=
  buildHeaders toLowerCase (withMapping o mapping)
  = [js "Accept: " ++ orElse (accept o) (js "application/json")]
      ++ authorizationHeader o
      ++ cookieHeader o
      ++ sanitizedEntries toLowerCase (withDefault mapping []).

(** A mapping filled with a name first and two indices after it. *)
Definition mixedMapping : list (jsstring * jsstring) :=
  [(js "b", js "1"); (js "2", js "x"); (js "1", js "y")].

(** * Properties *)

(** ** Strings *)

Lemma strEq_spec (a b : jsstring) : strEq a b = true <-> a = b.
Proof.
  revert b; induction a as [|x a IH]; intros [|y b]; simpl; split;
    try congruence; try reflexivity.
  - intros H. apply andb_true_iff in H as [Hx Hr].
    apply N.eqb_eq in Hx. apply IH in Hr. congruence.
  - intros H. injection H as -> ->. rewrite N.eqb_refl. simpl. now apply IH.
Qed.

Lemma strEq_false (a b : jsstring) : strEq a b = false <-> a <> b.
Proof.
  rewrite <- strEq_spec. destruct (strEq a b); split; congruence.
Qed.

Lemma has_spec (set : list jsstring) (x : jsstring) : has set x = true <-> In x set.
Proof.
  unfold has. rewrite existsb_exists. split.
  - intros (y & Hy & E). apply strEq_spec in E. now subst.
  - intros H. exists x. split; [assumption | now apply strEq_spec].
Qed.

Lemma trimStart_whitespace_app (l s : jsstring) :
  whitespace l -> trimStart (l ++ s) = trimStart s.
Proof.
  induction 1 as [|c l Hc _ IH]; simpl; [reflexivity|]. now rewrite Hc.
Qed.

Lemma trimStart_split (s : jsstring) :
  exists l, whitespace l /\ s = l ++ trimStart s.
Proof.
  induction s as [|c s (l & Hl & E)]; simpl.
  - exists []. split; [constructor | reflexivity].
  - destruct (isWhiteSpace c) eqn:Hc.
    + exists (c :: l). split; [now constructor | simpl; now f_equal].
    + exists []. split; [constructor | reflexivity].
Qed.

Lemma trimStart_head (s r : jsstring) (c : N) :
  trimStart s = c :: r -> isWhiteSpace c = false.
Proof.
  induction s as [|d s IH]; simpl; [discriminate|].
  destruct (isWhiteSpace d) eqn:Hd; [assumption|].
  intros H. injection H as -> _. assumption.
Qed.

Lemma trimStart_idem (s : jsstring) : trimStart (trimStart s) = trimStart s.
Proof.
  destruct (trimStart s) as [|c r] eqn:E; [reflexivity|].
  simpl. now rewrite (trimStart_head _ E).
Qed.

Lemma trimStart_nil (s : jsstring) : trimStart s = [] <-> whitespace s.
Proof.
  split.
  - intros E. destruct (trimStart_split s) as (l & Hl & Hs).
    rewrite E, app_nil_r in Hs. now subst.
  - intros H. rewrite <- (app_nil_r s). now rewrite trimStart_whitespace_app.
Qed.

Lemma trimStart_app (s t : jsstring) :
  trimStart s <> [] -> trimStart (s ++ t) = trimStart s ++ t.
Proof.
  induction s as [|c s IH]; simpl; [congruence|].
  destruct (isWhiteSpace c); [assumption | reflexivity].
Qed.

Lemma whitespace_rev (s : jsstring) : whitespace s -> whitespace (rev s).
Proof. apply Forall_rev. Qed.

Lemma trimEnd_whitespace_app (s r : jsstring) :
  whitespace r -> trimEnd (s ++ r) = trimEnd s.
Proof.
  intros H. unfold trimEnd. rewrite rev_app_distr.
  now rewrite trimStart_whitespace_app by now apply whitespace_rev.
Qed.

Lemma trimEnd_split (s : jsstring) :
  exists r, whitespace r /\ s = trimEnd s ++ r.
Proof.
  destruct (trimStart_split (rev s)) as (l & Hl & E).
  exists (rev l). split; [now apply whitespace_rev|].
  unfold trimEnd. rewrite <- rev_app_distr, <- E. now rewrite rev_involutive.
Qed.

Lemma trimEnd_nil (s : jsstring) : trimEnd s = [] <-> whitespace s.
Proof.
  unfold trimEnd. split.
  - intros E. apply (f_equal (@rev N)) in E. rewrite rev_involutive in E.
    simpl in E. apply trimStart_nil in E. apply whitespace_rev in E.
    now rewrite rev_involutive in E.
  - intros H. apply whitespace_rev, trimStart_nil in H. now rewrite H.
Qed.

Lemma trimEnd_app (s t : jsstring) :
  trimEnd t <> [] -> trimEnd (s ++ t) = s ++ trimEnd t.
Proof.
  intros H. unfold trimEnd in *. rewrite rev_app_distr, trimStart_app.
  - now rewrite rev_app_distr, rev_involutive.
  - intros E. apply H. now rewrite E.
Qed.

Lemma trimEnd_idem (s : jsstring) : trimEnd (trimEnd s) = trimEnd s.
Proof.
  unfold trimEnd. now rewrite rev_involutive, trimStart_idem.
Qed.

Lemma trim_whitespace_l (l s : jsstring) : whitespace l -> trim (l ++ s) = trim s.
Proof. intros H. unfold trim. now rewrite trimStart_whitespace_app. Qed.

Lemma trim_whitespace_r (s r : jsstring) : whitespace r -> trim (s ++ r) = trim s.
Proof.
  intros H. unfold trim. destruct (trimStart s) as [|c t] eqn:E.
  - apply trimStart_nil in E.
    assert (W : whitespace (s ++ r)) by (apply Forall_app; now split).
    apply trimStart_nil in W. now rewrite W.
  - rewrite trimStart_app by (rewrite E; discriminate).
    rewrite E. now apply trimEnd_whitespace_app.
Qed.

Lemma trim_split (s : jsstring) :
  exists l r, whitespace l /\ whitespace r /\ s = l ++ trim s ++ r.
Proof.
  destruct (trimStart_split s) as (l & Hl & E).
  destruct (trimEnd_split (trimStart s)) as (r & Hr & F).
  exists l, r. repeat split; try assumption.
  unfold trim. now rewrite <- F.
Qed.

Lemma trim_head (s r : jsstring) (c : N) : trim s = c :: r -> isWhiteSpace c = false.
Proof.
  unfold trim. intros E.
  destruct (trimEnd_split (trimStart s)) as (w & _ & F).
  rewrite E in F. simpl in F. now apply trimStart_head in F.
Qed.

Lemma trim_idem (s : jsstring) : trim (trim s) = trim s.
Proof.
  destruct (trim s) as [|c r] eqn:E; [reflexivity|].
  unfold trim at 1. simpl. rewrite (trim_head _ E).
  rewrite <- E. unfold trim. apply trimEnd_idem.
Qed.

Lemma trim_nil (s : jsstring) : trim s = [] <-> whitespace s.
Proof.
  split.
  - intros E. destruct (trim_split s) as (l & r & Hl & Hr & F).
    rewrite E in F. simpl in F. subst s. apply Forall_app. now split.
  - intros H. rewrite <- (app_nil_r s). rewrite trim_whitespace_l; [reflexivity | assumption].
Qed.

Lemma whitespace_no_colon (l : jsstring) : whitespace l -> ~ In colon l.
Proof.
  intros H Hc. unfold whitespace in H. rewrite Forall_forall in H.
  apply H in Hc. discriminate Hc.
Qed.

Lemma beforeColon_app_l (l s : jsstring) :
  ~ In colon l -> beforeColon (l ++ s) = l ++ beforeColon s.
Proof.
  induction l as [|c l IH]; simpl; [reflexivity|]. intros H.
  destruct (N.eqb_spec c colon) as [->|_]; [exfalso; apply H; now left|].
  f_equal. apply IH. intros Hc. apply H. now right.
Qed.

Lemma afterColon_app_l (l s : jsstring) :
  ~ In colon l -> afterColon (l ++ s) = afterColon s.
Proof.
  induction l as [|c l IH]; simpl; [reflexivity|]. intros H.
  destruct (N.eqb_spec c colon) as [->|_]; [exfalso; apply H; now left|].
  apply IH. intros Hc. apply H. now right.
Qed.

Lemma beforeColon_app_r (s r : jsstring) :
  In colon s -> beforeColon (s ++ r) = beforeColon s.
Proof.
  induction s as [|c s IH]; simpl; [tauto|]. intros H.
  destruct (N.eqb_spec c colon) as [->|Hn]; [reflexivity|].
  f_equal. apply IH. destruct H; congruence.
Qed.

Lemma afterColon_app_r (s r : jsstring) :
  In colon s -> afterColon (s ++ r) = afterColon s ++ r.
Proof.
  induction s as [|c s IH]; simpl; [tauto|]. intros H.
  destruct (N.eqb_spec c colon) as [->|Hn]; [reflexivity|].
  apply IH. destruct H; congruence.
Qed.

Lemma beforeColon_no_colon (s : jsstring) : ~ In colon (beforeColon s).
Proof.
  induction s as [|c s IH]; simpl; [tauto|].
  destruct (N.eqb_spec c colon) as [->|Hn]; simpl; [tauto|].
  intros [E|H]; [congruence | now apply IH].
Qed.

Lemma beforeColon_id (s : jsstring) : ~ In colon s -> beforeColon s = s.
Proof.
  intros H. rewrite <- (app_nil_r s) at 1.
  rewrite beforeColon_app_l by assumption. simpl. apply app_nil_r.
Qed.

Lemma colon_split (s : jsstring) :
  In colon s -> s = beforeColon s ++ colon :: afterColon s.
Proof.
  induction s as [|c s IH]; simpl; [tauto|]. intros H.
  destruct (N.eqb_spec c colon) as [->|Hn]; [reflexivity|].
  simpl. f_equal. apply IH. destruct H; congruence.
Qed.

Lemma In_colon_dec (s : jsstring) : {In colon s} + {~ In colon s}.
Proof. apply in_dec, N.eq_dec. Qed.

Lemma startsWith_colon (s : jsstring) :
  startsWith s (js ":") = true <-> exists r, s = colon :: r.
Proof.
  destruct s as [|c r]; simpl.
  - split; [discriminate | intros (r & E); discriminate].
  - rewrite andb_true_r. split.
    + intros E. apply N.eqb_eq in E. subst. now exists r.
    + intros (r' & E). injection E as -> _. reflexivity.
Qed.

Lemma indexOfFrom_colon (s : jsstring) (i : Z) :
  indexOfFrom (js ":") s i
  = if In_colon_dec s then (i + Z.of_nat (length (beforeColon s)))%Z else (-1)%Z.
Proof.
  revert i. induction s as [|c s IH]; intros i.
  - simpl. destruct (In_colon_dec []) as [[]|_]. reflexivity.
  - cbn [indexOfFrom startsWith js map list_ascii_of_string].
    change (N_of_ascii ":") with colon. rewrite andb_true_r.
    cbn [beforeColon]. destruct (N.eqb_spec c colon) as [->|Hn].
    + destruct (In_colon_dec (colon :: s)) as [_|H]; [simpl; lia|].
      exfalso. apply H. now left.
    + rewrite IH. destruct (In_colon_dec s) as [Hs|Hs];
        destruct (In_colon_dec (c :: s)) as [Hc|Hc].
      * cbn [length]. lia.
      * exfalso. apply Hc. now right.
      * exfalso. destruct Hc; [congruence | tauto].
      * reflexivity.
Qed.

Lemma indexOf_colon (s : jsstring) :
  In colon s -> indexOf s (js ":") = Z.of_nat (length (beforeColon s)).
Proof.
  intros H. unfold indexOf. rewrite indexOfFrom_colon.
  destruct (In_colon_dec s); [lia | tauto].
Qed.

Lemma indexOf_no_colon (s : jsstring) :
  ~ In colon s -> indexOf s (js ":") = (-1)%Z.
Proof.
  intros H. unfold indexOf. rewrite indexOfFrom_colon.
  destruct (In_colon_dec s); [tauto | reflexivity].
Qed.

Lemma slice_prefix (s : jsstring) (n : nat) :
  (n <= length s)%nat -> slice s 0 (Some (Z.of_nat n)) = firstn n s.
Proof.
  intros H. unfold slice. simpl.
  destruct (Z.ltb_spec (Z.of_nat n) 0) as [?|_]; [lia|].
  rewrite Z.min_l by lia. rewrite Z.min_l by lia.
  rewrite Z.sub_0_r, Nat2Z.id. reflexivity.
Qed.

Lemma slice_suffix (s : jsstring) (n : nat) :
  (n <= length s)%nat -> slice s (Z.of_nat n) None = skipn n s.
Proof.
  intros H. unfold slice.
  destruct (Z.ltb_spec (Z.of_nat n) 0) as [?|_]; [lia|].
  rewrite Z.min_l by lia. rewrite Nat2Z.id.
  apply firstn_all2. rewrite length_skipn. lia.
Qed.

Lemma slice_before_colon (s : jsstring) :
  In colon s -> slice s 0 (Some (indexOf s (js ":"))) = beforeColon s.
Proof.
  intros H. rewrite indexOf_colon by assumption.
  pose proof (colon_split s H) as E.
  remember (beforeColon s) as b. remember (afterColon s) as a.
  rewrite E. rewrite slice_prefix by (rewrite length_app; lia).
  rewrite firstn_app, Nat.sub_diag, firstn_all. simpl. apply app_nil_r.
Qed.

Lemma slice_after_colon (s : jsstring) :
  In colon s -> slice s (indexOf s (js ":") + 1) None = afterColon s.
Proof.
  intros H. rewrite indexOf_colon by assumption.
  replace (Z.of_nat (length (beforeColon s)) + 1)%Z
    with (Z.of_nat (S (length (beforeColon s)))) by lia.
  pose proof (colon_split s H) as E.
  remember (beforeColon s) as b. remember (afterColon s) as a.
  rewrite E. rewrite slice_suffix by (rewrite length_app; simpl; lia).
  replace (S (length b)) with (length (b ++ [colon]))
    by (rewrite length_app; simpl; lia).
  change (b ++ colon :: a) with (b ++ [colon] ++ a).
  rewrite app_assoc. rewrite skipn_app, Nat.sub_diag, skipn_all. reflexivity.
Qed.

Lemma trim_keeps_colon (h : jsstring) : In colon h <-> In colon (trim h).
Proof.
  destruct (trim_split h) as (l & r & Hl & Hr & E).
  apply whitespace_no_colon in Hl, Hr. split; intros H.
  - rewrite E in H. rewrite !in_app_iff in H. tauto.
  - rewrite E. rewrite !in_app_iff. tauto.
Qed.

Lemma trim_beforeColon (h : jsstring) :
  In colon h -> trim (beforeColon (trim h)) = trim (beforeColon h).
Proof.
  intros H. pose proof (proj1 (trim_keeps_colon h) H) as Ht.
  destruct (trim_split h) as (l & r & Hl & Hr & E).
  rewrite E at 2.
  rewrite beforeColon_app_l by now apply whitespace_no_colon.
  rewrite beforeColon_app_r by assumption.
  now rewrite trim_whitespace_l.
Qed.

Lemma trim_afterColon (h : jsstring) :
  In colon h -> trim (afterColon (trim h)) = trim (afterColon h).
Proof.
  intros H. pose proof (proj1 (trim_keeps_colon h) H) as Ht.
  destruct (trim_split h) as (l & r & Hl & Hr & E).
  rewrite E at 2.
  rewrite afterColon_app_l by now apply whitespace_no_colon.
  rewrite afterColon_app_r by assumption.
  now rewrite trim_whitespace_r.
Qed.

(** ** The header sanitizer *)

Section SanitizerProperties.

Variable toLowerCase : jsstring -> jsstring.

(** The sanitizer, on the first colon of the string it is given. *)
Lemma sanitizeHeader_unfold (h : jsstring) :
  sanitizeHeader toLowerCase h =
  match trim h with
  | [] => None
  | _ :: _ =>
      if In_colon_dec h then
        let name := trim (beforeColon h) in
        let value := trim (afterColon h) in
        if negb (truthy (Some name)) || negb (truthy (Some value)) then None
        else if startsWith name (js ":") then None
        else if strEq (toLowerCase name) (js "accept-encoding") then None
        else Some (normalized h)
      else None
  end.
Proof.
  unfold sanitizeHeader.
  destruct (trim h) as [|c t] eqn:Et; [reflexivity|].
  cbn [truthy negb]. rewrite <- Et.
  destruct (In_colon_dec h) as [Hc|Hc].
  - pose proof (proj1 (trim_keeps_colon h) Hc) as Ht.
    rewrite slice_before_colon, slice_after_colon by assumption.
    rewrite indexOf_colon by assumption.
    destruct (Z.eqb_spec (Z.of_nat (length (beforeColon (trim h)))) (-1)) as [?|_];
      [lia|].
    rewrite trim_beforeColon, trim_afterColon by assumption. reflexivity.
  - rewrite indexOf_no_colon; [reflexivity|].
    intros Ht. apply Hc. now apply trim_keeps_colon.
Qed.

(** The name the sanitizer extracts never begins with a colon: the test
    for a pseudo-header is subsumed by the test for an empty name. *)
Lemma name_never_pseudo (h : jsstring) :
  startsWith (trim (beforeColon h)) (js ":") = false.
Proof.
  destruct (startsWith _ _) eqn:E; [|reflexivity].
  apply startsWith_colon in E as (r & E).
  exfalso. apply (beforeColon_no_colon h).
  destruct (trim_split (beforeColon h)) as (l & w & _ & _ & F).
  rewrite F, E. rewrite !in_app_iff. right. left. now left.
Qed.

Lemma truthy_nil (s : jsstring) : truthy (Some s) = false <-> s = [].
Proof. destruct s; simpl; split; congruence. Qed.

(** C1: the sanitizer returns null exactly when the string is empty after
    trimming, has no colon, has an empty name or an empty value once split
    on its first colon and trimmed on each side, has a name that begins
    with a colon, or has a name that lowercases to [accept-encoding]; in
    every other case it returns the trimmed name, a colon, one space and
    the trimmed value. *)
Theorem sanitizeHeader_spec (h : jsstring) :
  (sanitizeHeader toLowerCase h = None <-> rejected toLowerCase h)
  /\ (sanitizeHeader toLowerCase h = None
      \/ sanitizeHeader toLowerCase h = Some (normalized h)).
Proof.
  rewrite sanitizeHeader_unfold. unfold rejected.
  destruct (trim h) as [|c t] eqn:Et.
  { split; [|now left]. split; [now left | reflexivity]. }
  destruct (In_colon_dec h) as [Hc|Hc].
  2:{ split; [|now left]. split; [now (right; left) | reflexivity]. }
  cbv zeta.
  destruct (truthy (Some (trim (beforeColon h)))) eqn:En.
  2:{ apply truthy_nil in En. split; [|now left].
      split; [intros _; right; right; now left | reflexivity]. }
  destruct (truthy (Some (trim (afterColon h)))) eqn:Ev.
  2:{ apply truthy_nil in Ev. split; [|now left].
      split; [intros _; right; right; right; now left | reflexivity]. }
  cbn [negb orb]. rewrite name_never_pseudo.
  destruct (strEq (toLowerCase (trim (beforeColon h))) (js "accept-encoding")) eqn:El.
  { apply strEq_spec in El. split; [|now left].
    split; [intros _; do 5 right; assumption | reflexivity]. }
  apply strEq_false in El. split; [|now right].
  split; [discriminate|].
  intros [H|[H|[H|[H|[H|H]]]]]; exfalso.
  - discriminate H.
  - tauto.
  - rewrite H in En. discriminate En.
  - rewrite H in Ev. discriminate Ev.
  - discriminate H.
  - tauto.
Qed.

(** What an accepted header is made of. *)
Lemma sanitizeHeader_Some (h s : jsstring) :
  sanitizeHeader toLowerCase h = Some s ->
  In colon h
  /\ trim (beforeColon h) <> []
  /\ trim (afterColon h) <> []
  /\ toLowerCase (trim (beforeColon h)) <> js "accept-encoding"
  /\ s = normalized h.
Proof.
  rewrite sanitizeHeader_unfold.
  destruct (trim h) as [|c t]; [discriminate|].
  destruct (In_colon_dec h) as [Hc|Hc]; [|discriminate].
  cbv zeta.
  destruct (trim (beforeColon h)) as [|n0 n] eqn:En; [discriminate|].
  destruct (trim (afterColon h)) as [|v0 v] eqn:Ev; [discriminate|].
  cbn [truthy negb orb]. rewrite <- En. rewrite name_never_pseudo.
  destruct (strEq _ _) eqn:El; [discriminate|].
  apply strEq_false in El. intros E. injection E as <-.
  unfold normalized. rewrite En, Ev. repeat split; try assumption.
  - discriminate.
  - discriminate.
  - now rewrite <- En.
Qed.

(** The converse: a string with a colon, a name and a value is accepted
    unless its name lowercases to [accept-encoding]. *)
Lemma sanitizeHeader_accepts (h : jsstring) :
  In colon h ->
  trim (beforeColon h) <> [] ->
  trim (afterColon h) <> [] ->
  toLowerCase (trim (beforeColon h)) <> js "accept-encoding" ->
  sanitizeHeader toLowerCase h = Some (normalized h).
Proof.
  intros Hc Hn Hv Hl. rewrite sanitizeHeader_unfold.
  destruct (trim h) as [|c t] eqn:Et.
  { apply trim_keeps_colon in Hc. rewrite Et in Hc. destruct Hc. }
  destruct (In_colon_dec h) as [_|N]; [|tauto]. cbv zeta.
  rewrite name_never_pseudo.
  destruct (trim (beforeColon h)) as [|n0 n]; [congruence|].
  destruct (trim (afterColon h)) as [|v0 v]; [congruence|].
  cbn [truthy negb orb].
  destruct (strEq _ _) eqn:El; [|reflexivity].
  apply strEq_spec in El. contradiction.
Qed.

(** A string that begins with a colon once trimmed, such as a pseudo-header
    of HTTP/2, is rejected whatever follows. *)
Lemma pseudo_header_rejected (h r : jsstring) :
  trim h = colon :: r -> sanitizeHeader toLowerCase h = None.
Proof.
  intros E. rewrite sanitizeHeader_unfold, E.
  destruct (In_colon_dec h) as [Hc|_]; [|reflexivity]. cbv zeta.
  destruct (trim_split h) as (l & w & Hl & _ & F). rewrite E in F.
  rewrite F. rewrite beforeColon_app_l by now apply whitespace_no_colon.
  cbn [app beforeColon]. rewrite N.eqb_refl, app_nil_r.
  apply trim_nil in Hl. now rewrite Hl.
Qed.

(** The rejections listed among the testable properties, on ASCII input. *)
Example sanitizer_examples :
  sanitizeHeader asciiToLowerCase (js "no colon here") = None
  /\ sanitizeHeader asciiToLowerCase (js ":authority: example.com") = None
  /\ sanitizeHeader asciiToLowerCase (js "Accept-Encoding: gzip") = None
  /\ sanitizeHeader asciiToLowerCase (js "ACCEPT-ENCODING: br") = None
  /\ sanitizeHeader asciiToLowerCase (js "X-Empty:   ") = None
  /\ sanitizeHeader asciiToLowerCase (js " Host :example.com:8080 ")
     = Some (js "Host: example.com:8080").
Proof. repeat split. Qed.

(** C10: the sanitizer is idempotent on what it accepts: a header it
    returns is returned unchanged when sanitized again. *)
Theorem sanitizeHeader_idempotent (h s : jsstring) :
  sanitizeHeader toLowerCase h = Some s ->
  sanitizeHeader toLowerCase s = Some s.
Proof.
  intros H. apply sanitizeHeader_Some in H as (_ & Hn & Hv & Hl & ->).
  set (name := trim (beforeColon h)) in *.
  set (value := trim (afterColon h)) in *.
  assert (Nc : ~ In colon name).
  { intros Hc. apply trim_keeps_colon in Hc. now apply beforeColon_no_colon in Hc. }
  assert (Eb : beforeColon (normalized h) = name).
  { unfold normalized. fold name value.
    rewrite beforeColon_app_l by assumption. simpl. apply app_nil_r. }
  assert (Ea : afterColon (normalized h) = 32%N :: value).
  { unfold normalized. fold name value.
    rewrite afterColon_app_l by assumption. reflexivity. }
  assert (Tn : trim name = name) by apply trim_idem.
  assert (Tv : trim (32%N :: value) = value).
  { change (32%N :: value) with ([32%N] ++ value).
    rewrite trim_whitespace_l; [apply trim_idem|].
    constructor; [reflexivity | constructor]. }
  assert (En : normalized (normalized h) = normalized h).
  { unfold normalized at 1. rewrite Eb, Ea, Tn, Tv. reflexivity. }
  rewrite <- En at 2. apply sanitizeHeader_accepts.
  - unfold normalized. rewrite in_app_iff. right. now left.
  - now rewrite Eb, Tn.
  - now rewrite Ea, Tv.
  - now rewrite Eb, Tn.
Qed.

End SanitizerProperties.

Lemma sanitizeHeader_idempotent_witness :
  sanitizeHeader asciiToLowerCase (js "  X-Request-Id :  abc 123 ")
    = Some (js "X-Request-Id: abc 123")
  /\ sanitizeHeader asciiToLowerCase (js "X-Request-Id: abc 123")
     = Some (js "X-Request-Id: abc 123").
Proof.
  split; [reflexivity|].
  apply (@sanitizeHeader_idempotent asciiToLowerCase (js "  X-Request-Id :  abc 123 ")).
  reflexivity.
Defined.

(** ** The order of the properties of an object *)

Lemma insertIndexed_perm (i : N) (e : jsstring * jsstring)
    (l : list (N * (jsstring * jsstring))) :
  Permutation (map snd (insertIndexed i e l)) (e :: map snd l).
Proof.
  induction l as [|[j f] l IH]; cbn [insertIndexed map snd]; [reflexivity|].
  destruct (i <=? j)%N; cbn [map snd]; [reflexivity|].
  rewrite IH. apply perm_swap.
Qed.

Lemma insertIndexed_hd (i : N) (e : jsstring * jsstring) (j : N)
    (f : jsstring * jsstring) (l : list (N * (jsstring * jsstring))) :
  (j <= i)%N -> HdRel byIndex (j, f) l ->
  HdRel byIndex (j, f) (insertIndexed i e l).
Proof.
  intros Hji H. destruct l as [|[k g] l]; cbn [insertIndexed].
  - constructor. exact Hji.
  - destruct (i <=? k)%N; constructor; [exact Hji|].
    now inversion H.
Qed.

Lemma insertIndexed_sorted (i : N) (e : jsstring * jsstring)
    (l : list (N * (jsstring * jsstring))) :
  Sorted byIndex l -> Sorted byIndex (insertIndexed i e l).
Proof.
  induction 1 as [|[j f] l Hs IH Hh]; cbn [insertIndexed].
  - repeat constructor.
  - destruct (N.leb_spec i j) as [Hij|Hij].
    + constructor; [now constructor | constructor; exact Hij].
    + constructor; [exact IH|]. apply insertIndexed_hd; [|exact Hh].
      unfold byIndex. lia.
Qed.

Lemma insertIndexed_keys (i : N) (e : jsstring * jsstring)
    (l : list (N * (jsstring * jsstring))) :
  arrayIndex (fst e) = Some i ->
  Forall (fun ie => arrayIndex (fst (snd ie)) = Some (fst ie)) l ->
  Forall (fun ie => arrayIndex (fst (snd ie)) = Some (fst ie)) (insertIndexed i e l).
Proof.
  intros He H. induction H as [|[j f] l Hj Hl IH]; cbn [insertIndexed].
  - now repeat constructor.
  - destruct (i <=? j)%N.
    + constructor; [exact He|]. constructor; [exact Hj | exact Hl].
    + constructor; [exact Hj | exact IH].
Qed.

(** What [Object.entries] yields first: the properties with an array-index
    key, each once, by ascending index. *)
Lemma indexedEntries_spec (props : list (jsstring * jsstring)) :
  Permutation (map snd (indexedEntries props)) (filter isIndexKey props)
  /\ Sorted byIndex (indexedEntries props)
  /\ Forall (fun ie => arrayIndex (fst (snd ie)) = Some (fst ie))
            (indexedEntries props).
Proof.
  induction props as [|e rest (Hp & Hs & Hk)]; cbn [indexedEntries filter].
  - repeat split; constructor.
  - unfold isIndexKey at 1. destruct (arrayIndex (fst e)) as [i|] eqn:E.
    + repeat split.
      * rewrite insertIndexed_perm. now constructor.
      * now apply insertIndexed_sorted.
      * now apply insertIndexed_keys.
    + now repeat split.
Qed.

(** A mapping without array-index keys is enumerated as it was filled. *)
Lemma objectEntries_named (props : list (jsstring * jsstring)) :
  (forall e, In e props -> arrayIndex (fst e) = None) ->
  objectEntries props = props.
Proof.
  intros H. unfold objectEntries, namedEntries.
  induction props as [|e rest IH]; [reflexivity|].
  cbn [indexedEntries filter]. unfold isIndexKey at 1.
  rewrite (H e (or_introl eq_refl)). cbn [negb].
  assert (G : forall x, In x rest -> arrayIndex (fst x) = None).
  { intros x Hx. apply H. now right. }
  specialize (IH G).
  destruct (indexedEntries rest) as [|ie l] eqn:E.
  - cbn [map app] in *. now f_equal.
  - exfalso. destruct (indexedEntries_spec rest) as (Hp & _ & _).
    rewrite E in Hp. cbn [map] in Hp.
    assert (Hin : In (snd ie) (filter isIndexKey rest)).
    { eapply Permutation_in; [exact Hp | now left]. }
    apply filter_In in Hin as [Hin Hi]. unfold isIndexKey in Hi.
    now rewrite (G _ Hin) in Hi.
Qed.

(** ** The header builders *)

Section BuilderProperties.

Variable toLowerCase : jsstring -> jsstring.

Lemma sanitized_truthy (h : jsstring) :
  truthy (sanitizeHeader toLowerCase h)
  = match sanitizeHeader toLowerCase h with Some _ => true | None => false end.
Proof.
  destruct (sanitizeHeader toLowerCase h) as [s|] eqn:E; [|reflexivity].
  apply sanitizeHeader_Some in E as (_ & _ & _ & _ & ->).
  unfold normalized. destruct (trim (beforeColon h)); reflexivity.
Qed.

Lemma sanitized_orElse (h s : jsstring) :
  sanitizeHeader toLowerCase h = Some s -> orElse (Some s) [] = s.
Proof.
  intros E. apply sanitizeHeader_Some in E as (_ & _ & _ & _ & ->).
  unfold normalized. destruct (trim (beforeColon h)); reflexivity.
Qed.

(** The loop over the additional headers appends the sanitized entries. *)
Lemma additional_loop (entries : list (jsstring * jsstring)) (acc : list jsstring) :
  fold_left
    (fun headers '(name, value) =>
       let sanitized := sanitizeHeader toLowerCase (name ++ js ": " ++ value) in
       if truthy sanitized then push headers (orElse sanitized []) else headers)
    entries acc
  = acc ++ sanitizedEntries toLowerCase entries.
Proof.
  revert acc. induction entries as [|[name value] rest IH]; intros acc.
  - simpl. now rewrite app_nil_r.
  - cbn [fold_left sanitizedEntries]. rewrite IH. cbv zeta.
    rewrite sanitized_truthy.
    destruct (sanitizeHeader toLowerCase (name ++ js ": " ++ value)) as [s|] eqn:E.
    + rewrite (sanitized_orElse _ E). unfold push. now rewrite <- app_assoc.
    + reflexivity.
Qed.

(** The builder as one list: Accept, Authorization, Cookie, additional. *)
Lemma buildHeaders_eq (o : BuildHeadersOptions) :
  buildHeaders toLowerCase o
  = [js "Accept: " ++ orElse (accept o) (js "application/json")]
      ++ authorizationHeader o
      ++ cookieHeader o
      ++ sanitizedEntries toLowerCase (withDefault (additionalHeaders o) []).
Proof.
  unfold buildHeaders, authorizationHeader, cookieHeader, push.
  destruct (additionalHeaders o) as [entries|]; cbn [withDefault].
  - rewrite additional_loop.
    destruct (authToken o) as [[|c t]|]; destruct (cookies o) as [[|d k]|];
      cbn [app]; rewrite <- ?app_assoc; reflexivity.
  - cbn [sanitizedEntries]. rewrite !app_nil_r.
    destruct (authToken o) as [[|c t]|]; destruct (cookies o) as [[|d k]|];
      cbn [app]; rewrite <- ?app_assoc; reflexivity.
Qed.

(** C4, amended: the list starts with the Accept header (the given value,
    or [application/json] when none is given), then holds the
    Authorization header when a token is given, the Cookie header when
    cookies are given, and the additional headers sanitized, the rejected
    ones dropped, in the order in which [Object.entries] enumerates the
    mapping: the keys that are array indices first, by ascending index,
    then the other keys in the order of their insertion - which is the
    order of insertion of the whole mapping when no key is an array index.
    With no option at all the list is the one Accept header; equal options
    give equal lists. *)
Theorem buildHeaders_spec (o : BuildHeadersOptions)
    (mapping : option (list (jsstring * jsstring))) :
  buildHeaders toLowerCase (withMapping o mapping)
  = [js "Accept: " ++ orElse (accept o) (js "application/json")]
      ++ authorizationHeader o
      ++ cookieHeader o
      ++ sanitizedEntries toLowerCase
           match mapping with
           | Some props => map snd (indexedEntries props) ++ namedEntries props
           | None => []
           end
  /\ (forall props,
        Permutation (map snd (indexedEntries props)) (filter isIndexKey props)
        /\ Sorted byIndex (indexedEntries props)
        /\ Forall (fun ie => arrayIndex (fst (snd ie)) = Some (fst ie))
                  (indexedEntries props)
        /\ ((forall e, In e props -> arrayIndex (fst e) = None) ->
            map snd (indexedEntries props) ++ namedEntries props = props))
  /\ buildHeaders toLowerCase noOptions = [js "Accept: application/json"]
  /\ (forall o', o' = o -> buildHeaders toLowerCase o' = buildHeaders toLowerCase o).
Proof.
  split.
  { rewrite buildHeaders_eq. unfold withMapping, authorizationHeader, cookieHeader.
    cbn [accept authToken cookies additionalHeaders].
    destruct mapping as [props|]; reflexivity. }
  split.
  { intros props. destruct (indexedEntries_spec props) as (Hp & Hs & Hk).
    repeat split; try assumption. apply objectEntries_named. }
  split; [reflexivity|]. intros o' E. now subst o'.
Qed.

(** C5: a non-empty token is emitted as [Authorization: Bearer t], or as
    [Authorization: t] when it already starts with [Bearer ]; the tokens
    [abc] and [Bearer abc] give the same header. *)
Theorem buildHeaders_authToken (t : jsstring) :
  t <> [] ->
  buildHeaders toLowerCase
    {| authToken := Some t; cookies := None; accept := None; additionalHeaders := None |}
  = [js "Accept: application/json";
     if startsWith t (js "Bearer ")
     then js "Authorization: " ++ t
     else js "Authorization: Bearer " ++ t]
  /\ buildHeaders toLowerCase
       {| authToken := Some (js "abc"); cookies := None; accept := None;
          additionalHeaders := None |}
     = [js "Accept: application/json"; js "Authorization: Bearer abc"]
  /\ buildHeaders toLowerCase
       {| authToken := Some (js "Bearer abc"); cookies := None; accept := None;
          additionalHeaders := None |}
     = [js "Accept: application/json"; js "Authorization: Bearer abc"].
Proof.
  intros Ht. split; [|split; reflexivity].
  destruct t as [|c t]; [congruence|].
  unfold buildHeaders, push, bearer. cbn [authToken cookies accept additionalHeaders orElse].
  destruct (startsWith (c :: t) (js "Bearer ")); reflexivity.
Qed.

End BuilderProperties.

(** A mapping filled as [b], [2], [1] is emitted as [1], [2], [b]: the
    additional headers do not follow the order of insertion once a key is
    an array index. *)
Lemma entries_not_in_insertion_order :
  ~ emitsInInsertionOrder asciiToLowerCase noOptions (Some mixedMapping).
Proof. unfold emitsInInsertionOrder. vm_compute. discriminate. Qed.

Example mixedMapping_headers :
  buildHeaders asciiToLowerCase (withMapping noOptions (Some mixedMapping))
  = [js "Accept: application/json"; js "1: y"; js "2: x"; js "b: 1"].
Proof. reflexivity. Qed.

Lemma buildHeaders_authToken_witness :
  buildHeaders asciiToLowerCase
    {| authToken := Some (js "tok-1"); cookies := None; accept := None;
       additionalHeaders := None |}
  = [js "Accept: application/json"; js "Authorization: Bearer tok-1"].
Proof.
  refine (proj1 (@buildHeaders_authToken asciiToLowerCase (js "tok-1") _)).
  discriminate.
Defined.

(** ** The redaction-aware builder *)

Section RedactionProperties.

Variable toLowerCase : jsstring -> jsstring.

(** The classifier: sensitive by default or by the caller's list, and not
    excluded; exclusion is tested first. *)
Lemma shouldRedact_spec (options : RedactionOptions) (n : jsstring) :
  shouldRedact toLowerCase options n = true
  <-> sensitive toLowerCase options n /\ ~ excluded toLowerCase options n.
Proof.
  unfold shouldRedact, sensitive, excluded, sameName, excludeSet. cbv zeta.
  destruct (has (map toLowerCase _) (toLowerCase n)) eqn:Ex.
  - apply has_spec, in_map_iff in Ex as (h & E & Hh).
    split; [discriminate|]. intros [_ H]. exfalso. apply H.
    exists h. split; [|assumption].
    destruct (excludeFromRedaction options); assumption.
  - assert (Hx : ~ exists h, In h (withDefault (excludeFromRedaction options) [])
                             /\ toLowerCase h = toLowerCase n).
    { intros (h & Hh & E).
      assert (T : has (map toLowerCase
                         match excludeFromRedaction options with
                         | Some l => l | None => [] end) (toLowerCase n) = true).
      { apply has_spec, in_map_iff. exists h. split; [assumption|].
        destruct (excludeFromRedaction options); assumption. }
      congruence. }
    destruct (has defaultSensitive (toLowerCase n)) eqn:Ed.
    + apply has_spec in Ed. split; [intros _; split; [now left | assumption] | reflexivity].
    + assert (Hd : ~ In (toLowerCase n) defaultSensitive).
      { intros H. apply has_spec in H. congruence. }
      destruct (sensitiveHeaders options) as [l|]; cbn [withDefault].
      * destruct (existsb _ l) eqn:Es.
        -- apply existsb_exists in Es as (h & Hh & E). apply strEq_spec in E.
           split; [intros _; split; [right; now exists h | assumption] | reflexivity].
        -- split; [discriminate|]. intros [[H|(h & Hh & E)] _]; [tauto|].
           assert (T : existsb (fun h => strEq (toLowerCase h) (toLowerCase n)) l = true).
           { apply existsb_exists. exists h. split; [assumption | now apply strEq_spec]. }
           congruence.
      * split; [discriminate|]. intros [[H|(h & [] & _)] _]. tauto.
Qed.

(** The loop over the additional headers fills both arrays in step. *)
Lemma redaction_loop (options : RedactionOptions)
    (entries : list (jsstring * jsstring)) (hs rs : list jsstring) :
  fold_left (redactStep toLowerCase options) entries (hs, rs)
  = (hs ++ sanitizedEntries toLowerCase entries,
     rs ++ filter (shouldRedact toLowerCase options)
                  (map fst (accepted toLowerCase entries))).
Proof.
  revert hs rs. induction entries as [|[name value] rest IH]; intros hs rs.
  - simpl. now rewrite !app_nil_r.
  - cbn [fold_left sanitizedEntries accepted filter fst snd].
    unfold redactStep at 2. cbv zeta. rewrite sanitized_truthy.
    destruct (sanitizeHeader toLowerCase (name ++ js ": " ++ value)) as [s|] eqn:E.
    + rewrite (@sanitized_orElse toLowerCase _ _ E). rewrite IH. unfold push.
      cbn [map filter fst].
      destruct (shouldRedact toLowerCase options name);
        rewrite <- ?app_assoc; reflexivity.
    + apply IH.
Qed.

Lemma classified_names (options : RedactionOptions) :
  map fst (classified toLowerCase options)
  = (if truthy (authToken (base options)) then [js "Authorization"] else [])
      ++ (if truthy (cookies (base options)) then [js "Cookie"] else [])
      ++ map fst (accepted toLowerCase
                    (withDefault (additionalHeaders (base options)) [])).
Proof.
  unfold classified. cbv zeta. rewrite !map_app, map_map. cbn [fst].
  rewrite map_ext with (g := fst) by reflexivity.
  destruct (truthy (authToken (base options)));
    destruct (truthy (cookies (base options))); reflexivity.
Qed.

Lemma buildHeadersWithRedaction_eq (options : RedactionOptions) :
  buildHeadersWithRedaction toLowerCase options
  = {| hwr_headers := buildHeaders toLowerCase (base options);
       hwr_redaction :=
         match listed toLowerCase options with
         | [] => []
         | names => [ {| request := Some {| headers := Some names |} |} ]
         end |}.
Proof.
  rewrite (buildHeaders_eq toLowerCase (base options)).
  unfold listed. rewrite classified_names.
  unfold buildHeadersWithRedaction, authorizationHeader, cookieHeader, push.
  cbv zeta.
  set (sr := shouldRedact toLowerCase options).
  destruct (additionalHeaders (base options)) as [entries|]; cbn [withDefault].
  - destruct (authToken (base options)) as [[|c t]|];
      destruct (cookies (base options)) as [[|d k]|];
      cbn [truthy app filter];
      try destruct (sr (js "Authorization")); try destruct (sr (js "Cookie"));
      rewrite redaction_loop; fold sr; cbn [app];
      match goal with
      | |- context [filter sr ?l] => destruct (filter sr l)
      end; cbn [app length Nat.ltb Nat.leb]; rewrite <- ?app_assoc; reflexivity.
  - destruct (authToken (base options)) as [[|c t]|];
      destruct (cookies (base options)) as [[|d k]|];
      cbn [truthy app map fst filter accepted sanitizedEntries];
      try destruct (sr (js "Authorization")); try destruct (sr (js "Cookie"));
      reflexivity.
Qed.

Lemma redactionNames_eq (options : RedactionOptions) :
  redactionNames (buildHeadersWithRedaction toLowerCase options)
  = listed toLowerCase options.
Proof.
  rewrite buildHeadersWithRedaction_eq. unfold redactionNames. cbn [hwr_redaction].
  destruct (listed toLowerCase options); [reflexivity|].
  cbn [flat_map request headers withDefault]. apply app_nil_r.
Qed.

(** C2, amended: for every classified header - the Authorization header,
    the Cookie header, an accepted additional header - whose name is the
    name it is classified under, the name is listed exactly when it is
    sensitive (by default or by the caller's list) and not excluded.  The
    leading Accept header is not classified. *)
Theorem redaction_iff_sensitive (options : RedactionOptions) (n h : jsstring) :
  In (n, h) (classified toLowerCase options) ->
  headerName h = n ->
  (In n (redactionNames (buildHeadersWithRedaction toLowerCase options))
   <-> sensitive toLowerCase options n /\ ~ excluded toLowerCase options n).
Proof.
  intros Hc _. rewrite redactionNames_eq. unfold listed.
  rewrite filter_In, shouldRedact_spec.
  assert (Hn : In n (map fst (classified toLowerCase options))).
  { apply in_map_iff. now exists (n, h). }
  tauto.
Qed.

End RedactionProperties.

Lemma redaction_iff_sensitive_witness :
  let options :=
    {| base := {| authToken := Some (js "x"); cookies := None; accept := None;
                  additionalHeaders := None |};
       sensitiveHeaders := None; excludeFromRedaction := None |} in
  In (js "Authorization")
     (redactionNames (buildHeadersWithRedaction asciiToLowerCase options))
  <-> sensitive asciiToLowerCase options (js "Authorization")
      /\ ~ excluded asciiToLowerCase options (js "Authorization").
Proof.
  intros options.
  apply (@redaction_iff_sensitive asciiToLowerCase options
           (js "Authorization") (js "Authorization: Bearer x")).
  - left. reflexivity.
  - reflexivity.
Defined.

(** The Accept header is emitted and never listed, even when the caller
    names it sensitive: the rule does not hold over every emitted header. *)
Lemma accept_never_listed :
  ~ listedIffSensitive asciiToLowerCase
      {| base := noOptions;
         sensitiveHeaders := Some [js "Accept"];
         excludeFromRedaction := None |}.
Proof.
  intros H.
  specialize (H (js "Accept: application/json") (or_introl eq_refl)).
  destruct H as [_ H].
  assert (L : In (js "Accept") []); [|destruct L].
  apply H. split.
  - right. exists (js "Accept"). split; [now left | reflexivity].
  - intros (h & [] & _).
Qed.

(** The examples of the redaction rule: a token alone lists
    [Authorization]; excluding it lists nothing; an [X-Api-Key] entry is
    listed by default. *)
Example redaction_examples :
  let opts t x a :=
    {| base := {| authToken := t; cookies := None; accept := None;
                  additionalHeaders := a |};
       sensitiveHeaders := None; excludeFromRedaction := x |} in
  redactionNames (buildHeadersWithRedaction asciiToLowerCase
                    (opts (Some (js "x")) None None))
    = [js "Authorization"]
  /\ hwr_redaction (buildHeadersWithRedaction asciiToLowerCase
                      (opts (Some (js "x")) (Some [js "Authorization"]) None))
     = []
  /\ redactionNames (buildHeadersWithRedaction asciiToLowerCase
                       (opts None None (Some [(js "X-Api-Key", js "k")])))
     = [js "X-Api-Key"].
Proof. repeat split. Qed.

(** C3, at a key with a trailing space that the caller also names
    sensitive: the header is emitted under the trimmed name while the
    descriptor lists the key as given, which names no returned header. *)
Theorem redaction_lists_raw_key :
  let r := buildHeadersWithRedaction asciiToLowerCase
             {| base := {| authToken := None; cookies := None; accept := None;
                           additionalHeaders := Some [(js "X-Token ", js "s")] |};
                sensitiveHeaders := Some [js "X-Token "];
                excludeFromRedaction := None |} in
  hwr_headers r = [js "Accept: application/json"; js "X-Token: s"]
  /\ hwr_redaction r
     = [ {| request := Some {| headers := Some [js "X-Token "] |} |} ]
  /\ ~ listedArePresent r.
Proof.
  intros r. split; [reflexivity|]. split; [reflexivity|].
  intros H. destruct (H (js "X-Token ") (or_introl eq_refl)) as (v & Hin).
  vm_compute in Hin. destruct Hin as [E|[E|[]]]; discriminate E.
Qed.

Section BareKeys.

Variable toLowerCase : jsstring -> jsstring.

Lemma sanitizedEntries_In (entries : list (jsstring * jsstring)) (k v s : jsstring) :
  In (k, v) entries ->
  sanitizeHeader toLowerCase (k ++ js ": " ++ v) = Some s ->
  In s (sanitizedEntries toLowerCase entries).
Proof.
  induction entries as [|[k' v'] rest IH]; [intros []|].
  intros [E|H] Hs; cbn [sanitizedEntries].
  - injection E as -> ->. rewrite Hs. now left.
  - destruct (sanitizeHeader toLowerCase (k' ++ js ": " ++ v'));
      [right|]; now apply IH.
Qed.

(** An accepted entry whose key is a bare name (already trimmed, without a
    colon) is emitted under that very name. *)
Lemma bare_key_header (k v s : jsstring) :
  trim k = k -> ~ In colon k ->
  sanitizeHeader toLowerCase (k ++ js ": " ++ v) = Some s ->
  s = k ++ js ": " ++ trim (32%N :: v) /\ headerName s = k.
Proof.
  intros Tk Nk Hs. apply sanitizeHeader_Some in Hs as (_ & _ & _ & _ & ->).
  unfold normalized, headerName.
  rewrite beforeColon_app_l, afterColon_app_l by assumption.
  cbn [js map list_ascii_of_string app beforeColon afterColon].
  change (N_of_ascii ":" =? colon)%N with true. cbv iota.
  rewrite app_nil_r, Tk. split; [reflexivity|].
  rewrite beforeColon_app_l by assumption. simpl. apply app_nil_r.
Qed.

(** The part of C3 that holds: when every additional key is a bare name,
    every listed name is the name of a returned header. *)
Lemma listed_present_bare_keys (options : RedactionOptions) :
  (forall k v, In (k, v) (withDefault (additionalHeaders (base options)) []) ->
               trim k = k /\ ~ In colon k) ->
  listedArePresent (buildHeadersWithRedaction toLowerCase options).
Proof.
  intros Hk n Hn. rewrite redactionNames_eq in Hn. unfold listed in Hn.
  apply filter_In in Hn as [Hn _]. rewrite classified_names in Hn.
  rewrite buildHeadersWithRedaction_eq. cbn [hwr_headers].
  rewrite (buildHeaders_eq toLowerCase (base options)).
  unfold authorizationHeader, cookieHeader.
  rewrite !in_app_iff in Hn. destruct Hn as [Hn|[Hn|Hn]].
  - destruct (authToken (base options)) as [[|c t]|]; cbn [truthy In] in Hn;
      try contradiction.
    destruct Hn as [<-|[]]. exists (bearer (c :: t)).
    rewrite !in_app_iff. right. left. now left.
  - destruct (cookies (base options)) as [[|c t]|]; cbn [truthy In] in Hn;
      try contradiction.
    destruct Hn as [<-|[]]. exists (c :: t).
    rewrite !in_app_iff. right. right. left. now left.
  - apply in_map_iff in Hn as ([k v] & <- & Hin). cbn [fst].
    unfold accepted in Hin. apply filter_In in Hin as [Hin Ht]. cbn [fst snd] in Ht.
    destruct (sanitizeHeader toLowerCase (k ++ js ": " ++ v)) as [s|] eqn:Hs;
      [|discriminate Ht].
    destruct (Hk k v Hin) as [Tk Nk].
    destruct (bare_key_header v Tk Nk Hs) as [-> _].
    exists (trim (32%N :: v)). rewrite !in_app_iff. do 3 right.
    now apply sanitizedEntries_In with (k := k) (v := v).
Qed.

End BareKeys.

(** ** Effects: runs *)

(** Every computation has a run: the one of [exec]. *)
Lemma exec_runs {A : Type} (w : world) (c : io A) :
  runs c (fst (exec w c)) (snd (exec w c)).
Proof.
  induction c as [a|e|chunk k IH|p k IH|p k IH|p data k IH|k IH|url init k IH];
    cbn [exec].
  - constructor.
  - constructor.
  - destruct (exec w k) as [tr out]. now constructor.
  - specialize (IH (fsExists w p)).
    destruct (exec w (k (fsExists w p))) as [tr out]. now constructor.
  - destruct (fsMkdir w p); [|constructor].
    destruct (exec w k) as [tr out]. now constructor.
  - destruct (fsWrite w p data); [|constructor].
    destruct (exec w k) as [tr out]. now constructor.
  - specialize (IH (clock w)).
    destruct (exec w (k (clock w))) as [tr out]. now constructor.
  - destruct (network w url init) as [r|]; [|constructor].
    specialize (IH r). destruct (exec w (k r)) as [tr out]. now constructor.
Qed.

Ltac run_step H := inversion H; subst; clear H.
Ltac run_next :=
  match goal with
  | H : runs _ _ _ |- _ =>
      cbn [bind when existsSync mkdirSync writeFileSync nowISO stdoutWrite fetch] in H;
      run_step H
  end.

Lemma includes_middle (a b c : jsstring) : includes (a ++ b ++ c) b.
Proof. now exists a, c. Qed.

Lemma includes_suffix (a b : jsstring) : includes (a ++ b) b.
Proof. exists a, []. now rewrite app_nil_r. Qed.

(** ** The proof client *)

Section ClientProperties.

Variable credentials : VouchCredentials.

Lemma generate_answered (request : WebProofRequest) (response : Response)
    (out : outcome WebProof) :
  answered (generateWebProof credentials request) response out ->
  ok response = false ->
  out = Threw (Error (js "Vouch API error (" ++ decimal (status response)
                        ++ js "): " ++ text response)).
Proof.
  intros (url & init & rest & H) Hok. unfold generateWebProof in H.
  cbn [bind fetch] in H. run_step H.
  match goal with R : runs _ _ _ |- _ => rewrite Hok in R; cbn in R; run_step R end.
  reflexivity.
Qed.

Lemma verify_answered (proof : WebProof) (response : Response)
    (out : outcome VerificationResult) :
  answered (verifyWebProof credentials proof) response out ->
  ok response = false ->
  out = Threw (Error (js "Verification API error (" ++ decimal (status response)
                        ++ js "): " ++ text response)).
Proof.
  intros (url & init & rest & H) Hok. unfold verifyWebProof in H.
  cbn [bind fetch] in H. run_step H.
  match goal with R : runs _ _ _ |- _ => rewrite Hok in R; cbn in R; run_step R end.
  reflexivity.
Qed.

Lemma detail_reports {A : Type} (label : jsstring) (response : Response) :
  @reportsFailure A response
    (Threw (Error (label ++ decimal (status response) ++ js "): " ++ text response))).
Proof.
  eexists. split; [reflexivity|]. split.
  - apply includes_middle.
  - rewrite !app_assoc. apply includes_suffix.
Qed.

(** C6: when the service answers a generate or a verify call with a
    non-success status, the call can only fail, and the failure detail
    holds the status code and the body text; such a failing run exists. *)
Theorem non_success_status_fails (request : WebProofRequest) (proof : WebProof)
    (response : Response) :
  ok response = false ->
  (exists out, answered (generateWebProof credentials request) response out)
  /\ (forall out, answered (generateWebProof credentials request) response out ->
                  reportsFailure response out)
  /\ (exists out, answered (verifyWebProof credentials proof) response out)
  /\ (forall out, answered (verifyWebProof credentials proof) response out ->
                  reportsFailure response out).
Proof.
  intros Hok. repeat split.
  - eexists. do 3 eexists. unfold generateWebProof. cbn [bind fetch].
    apply run_fetch. rewrite Hok. cbn. apply run_throw.
  - intros out H. rewrite (generate_answered H Hok). apply detail_reports.
  - eexists. do 3 eexists. unfold verifyWebProof. cbn [bind fetch].
    apply run_fetch. rewrite Hok. cbn. apply run_throw.
  - intros out H. rewrite (verify_answered H Hok). apply detail_reports.
Qed.

End ClientProperties.

(** The scenario of the specification: a generate call answered with 403
    and the body [forbidden]. *)
Lemma non_success_status_fails_witness :
  ok forbidden = false
  /\ answered (generateWebProof sampleCredentials sampleRequest) forbidden
       (Threw (Error (js "Vouch API error (403): forbidden")))
  /\ @reportsFailure WebProof forbidden
       (Threw (Error (js "Vouch API error (403): forbidden"))).
Proof.
  assert (R : answered (generateWebProof sampleCredentials sampleRequest) forbidden
                (Threw (Error (js "Vouch API error (403): forbidden")))).
  { do 3 eexists. unfold generateWebProof. cbn [bind fetch].
    apply run_fetch. apply run_throw. }
  split; [reflexivity|]. split; [exact R|].
  exact (proj1 (proj2 (@non_success_status_fails sampleCredentials sampleRequest
                         JNull forbidden eq_refl)) _ R).
Defined.

(** ** The artifact sink *)

Section SinkProperties.

Variable path_join : jsstring -> jsstring -> jsstring.

(** C7, amended: for the same proof, verification and flags, what the
    stdout mode writes on standard output is the text the return mode hands
    back in its [json] field, followed by one line feed. *)
Theorem stdout_is_return_and_newline (proof : WebProof)
    (verification : VerificationResult) (output : OutputOptions) :
  exists json,
    outputProofArtifacts path_join proof verification (withMode return_ output)
    = Ret {| out_mode := return_; out_paths := None; out_json := Some json |}
    /\ outputProofArtifacts path_join proof verification (withMode stdout output)
       = StdoutWrite (json ++ [10%N])
           (Ret {| out_mode := stdout; out_paths := None; out_json := None |}).
Proof.
  unfold outputProofArtifacts. cbn [withMode mode]. eexists. split; reflexivity.
Qed.

(** C8: in file mode without an output directory the operation throws at
    once: its only run fails with the configuration error and holds no
    effect at all. *)
Theorem file_mode_requires_outputDir (proof : WebProof)
    (verification : VerificationResult) (output : OutputOptions) :
  mode output = file ->
  truthy (outputDir output) = false ->
  let c := outputProofArtifacts path_join proof verification output in
  let failure : outcome ProofArtifactOutput :=
    Threw (Error (js "outputDir is required for file output mode")) in
  runs c [] failure
  /\ (forall tr out, runs c tr out -> tr = [] /\ out = failure).
Proof.
  intros Hm Hd c failure.
  assert (E : c = Throw (Error (js "outputDir is required for file output mode"))).
  { unfold c, outputProofArtifacts. rewrite Hm, Hd. reflexivity. }
  rewrite E. split; [constructor|].
  intros tr out H. run_step H. now split.
Qed.

(** The body of the file mode once the directory is known. *)
Lemma file_mode_run (proof : WebProof) (verification : VerificationResult)
    (output : OutputOptions) (tr : list event) (r : ProofArtifactOutput) :
  mode output = file ->
  runs (outputProofArtifacts path_join proof verification output) tr (Returned r) ->
  exists dir iso present,
    outputDir output = Some dir /\ dir <> []
    /\ let stem := withDefault (prefix output) (js "proof") in
       let indent : N := if withDefault (pretty output) true then 2%N else 0%N in
       let p := path_join dir (stem ++ js "-" ++ replaceColonDot iso ++ js ".json") in
       let v := path_join dir
                  (stem ++ js "-verification-" ++ replaceColonDot iso ++ js ".json") in
       r = {| out_mode := file;
              out_paths := Some {| proofPath := p; verificationPath := v |};
              out_json := None |}
       /\ tr = [EvExists dir present]
                 ++ (if present then [] else [EvMkdir dir true])
                 ++ [EvNow iso; EvWrite p (stringify proof indent) true]
                 ++ (if truthyValue verification
                        && withDefault (includeVerification output) true
                     then [EvWrite v (stringify verification indent) true]
                     else []).
Proof.
  intros Hm H. unfold outputProofArtifacts in H. rewrite Hm in H.
  destruct (outputDir output) as [[|d dir]|] eqn:Hd; cbn [truthy negb orElse] in H;
    try solve [run_step H].
  cbn [bind existsSync] in H. run_step H.
  set (cond := truthyValue verification
               && withDefault (includeVerification output) true) in *.
  destruct b; cbn [negb] in *.
  - run_next. run_next. destruct cond; run_next; try run_next;
      match goal with
      | |- context [EvNow ?iso] => exists (d :: dir), iso, true
      end;
      (split; [reflexivity|]); (split; [discriminate|]); split; reflexivity.
  - run_next. run_next. run_next. destruct cond; run_next; try run_next;
      match goal with
      | |- context [EvNow ?iso] => exists (d :: dir), iso, false
      end;
      (split; [reflexivity|]); (split; [discriminate|]); split; reflexivity.
Qed.

(** C9: a call in file mode that succeeds returns both the proof path and
    the verification path, whatever was written; when the verification is
    null or is not to be included, the only file written is the proof. *)
Theorem file_mode_returns_both_paths (proof : WebProof)
    (verification : VerificationResult) (output : OutputOptions)
    (tr : list event) (r : ProofArtifactOutput) :
  mode output = file ->
  runs (outputProofArtifacts path_join proof verification output) tr (Returned r) ->
  exists dir iso,
    outputDir output = Some dir
    /\ In (EvNow iso) tr
    /\ let stem := withDefault (prefix output) (js "proof") in
       let p := path_join dir (stem ++ js "-" ++ replaceColonDot iso ++ js ".json") in
       let v := path_join dir
                  (stem ++ js "-verification-" ++ replaceColonDot iso ++ js ".json") in
       out_mode r = file
       /\ out_paths r = Some {| proofPath := p; verificationPath := v |}
       /\ (verification = JNull \/ includeVerification output = Some false ->
           written tr = [p]).
Proof.
  intros Hm H.
  destruct (file_mode_run _ _ _ Hm H) as (dir & iso & present & Hd & _ & Hr).
  cbv zeta in Hr. destruct Hr as [Er Et]. subst r tr.
  exists dir, iso. split; [assumption|]. split.
  { rewrite !in_app_iff. right. right. left. now left. }
  cbv zeta. split; [reflexivity|]. split; [reflexivity|].
  intros Hv.
  assert (C : truthyValue verification
              && withDefault (includeVerification output) true = false).
  { destruct Hv as [-> | ->]; [reflexivity | apply andb_false_r]. }
  rewrite C. destruct present; reflexivity.
Qed.

End SinkProperties.

(** The text written on standard output is not the text returned: it ends
    with a line feed the returned text does not have. *)
Lemma emitted_text_differs :
  ~ sameText joinPlain sampleProof JNull (sampleOutput return_ None).
Proof. unfold sameText. vm_compute. discriminate. Qed.

Lemma file_mode_requires_outputDir_witness :
  runs (outputProofArtifacts joinPlain sampleProof JNull (sampleOutput file None))
       [] (Threw (Error (js "outputDir is required for file output mode"))).
Proof.
  exact (proj1 (@file_mode_requires_outputDir joinPlain sampleProof JNull
                  (sampleOutput file None) eq_refl eq_refl)).
Defined.

Lemma file_mode_returns_both_paths_witness :
  let c := outputProofArtifacts joinPlain sampleProof JNull
             (sampleOutput file (Some (js "proofs"))) in
  let p := js "proofs/proof-2026-01-02T03-04-05-678Z.json" in
  let v := js "proofs/proof-verification-2026-01-02T03-04-05-678Z.json" in
  snd (exec sampleWorld c)
  = Returned {| out_mode := file;
                out_paths := Some {| proofPath := p; verificationPath := v |};
                out_json := None |}
  /\ written (fst (exec sampleWorld c)) = [p].
Proof.
  intros c p v. split; [reflexivity|].
  destruct (@file_mode_returns_both_paths joinPlain sampleProof JNull
              (sampleOutput file (Some (js "proofs")))
              (fst (exec sampleWorld c))
              {| out_mode := file;
                 out_paths := Some {| proofPath := p; verificationPath := v |};
                 out_json := None |}
              eq_refl (exec_runs sampleWorld c))
    as (dir & iso & Hd & Hi & _ & _ & Hw).
  injection Hd as <-.
  destruct Hi as [E|[E|[E|[E|[]]]]]; try discriminate E.
  injection E as <-. apply Hw. now left.
Defined.

(** * Further properties *)

(** ** The sanitizer: shape of what it accepts *)

Section SanitizerShape.

Variable toLowerCase : jsstring -> jsstring.

Lemma trim_trimStart (x : jsstring) : trimStart (trim x) = trim x.
Proof.
  destruct (trim x) as [|c r] eqn:E; [reflexivity|].
  simpl. now rewrite (trim_head _ E).
Qed.

Lemma trim_trimEnd (x : jsstring) : trimEnd (trim x) = trim x.
Proof. unfold trim. apply trimEnd_idem. Qed.

Lemma trim_no_colon (x : jsstring) : ~ In colon x -> ~ In colon (trim x).
Proof. intros H Hc. apply H. now apply trim_keeps_colon. Qed.

(** A header made of a trimmed name, a colon, a space and a trimmed value
    is itself trimmed. *)
Lemma normalized_trimmed (h : jsstring) :
  trim (beforeColon h) <> [] -> trim (afterColon h) <> [] ->
  trim (normalized h) = normalized h.
Proof.
  intros Hn Hv. unfold normalized.
  set (name := trim (beforeColon h)) in *. set (value := trim (afterColon h)) in *.
  unfold trim at 1.
  rewrite trimStart_app by (unfold name; now rewrite trim_trimStart).
  unfold name at 1. rewrite trim_trimStart. fold name.
  rewrite app_assoc.
  rewrite trimEnd_app by (unfold value; now rewrite trim_trimEnd).
  unfold value at 1. now rewrite trim_trimEnd.
Qed.

Lemma normalized_name (h : jsstring) :
  headerName (normalized h) = trim (beforeColon h).
Proof.
  unfold headerName, normalized.
  rewrite beforeColon_app_l by (apply trim_no_colon, beforeColon_no_colon).
  simpl. apply app_nil_r.
Qed.

Lemma normalized_value (h : jsstring) :
  afterColon (normalized h) = 32%N :: trim (afterColon h).
Proof.
  unfold normalized.
  rewrite afterColon_app_l by (apply trim_no_colon, beforeColon_no_colon).
  reflexivity.
Qed.

(** X1: a header the sanitizer returns is in normal form: it has no
    whitespace at either end; its name, the text before its first colon,
    is the trimmed name of the input, is not empty, holds no colon and
    does not lowercase to [accept-encoding]; one space follows the colon,
    and the value after it is the trimmed value of the input, not empty. *)
Theorem sanitizeHeader_normal_form (h s : jsstring) :
  sanitizeHeader toLowerCase h = Some s ->
  trim s = s
  /\ headerName s = trim (beforeColon h)
  /\ headerName s <> []
  /\ ~ In colon (headerName s)
  /\ toLowerCase (headerName s) <> js "accept-encoding"
  /\ afterColon s = 32%N :: trim (afterColon h)
  /\ trim (afterColon h) <> [].
Proof.
  intros H. apply sanitizeHeader_Some in H as (_ & Hn & Hv & Hl & ->).
  rewrite normalized_name, normalized_value.
  repeat split; try assumption.
  - now apply normalized_trimmed.
  - apply trim_no_colon, beforeColon_no_colon.
Qed.

(** Two strings with the same name and value on each side of their first
    colon are sanitized alike. *)
Lemma sanitizeHeader_ext (a b : jsstring) :
  (trim a = [] <-> trim b = []) ->
  (In colon a <-> In colon b) ->
  trim (beforeColon a) = trim (beforeColon b) ->
  trim (afterColon a) = trim (afterColon b) ->
  sanitizeHeader toLowerCase a = sanitizeHeader toLowerCase b.
Proof.
  intros Ht Hc Hn Hv. rewrite !sanitizeHeader_unfold.
  unfold normalized. rewrite Hn, Hv.
  destruct (trim a) as [|x a'] eqn:Ea; destruct (trim b) as [|y b'] eqn:Eb.
  - reflexivity.
  - destruct Ht as [Ht _]. discriminate (Ht eq_refl).
  - destruct Ht as [_ Ht]. discriminate (Ht eq_refl).
  - destruct (In_colon_dec a), (In_colon_dec b); tauto || reflexivity.
Qed.

(** X2: whitespace around the whole string does not matter. *)
Theorem sanitizeHeader_outer_whitespace (l h r : jsstring) :
  whitespace l -> whitespace r ->
  sanitizeHeader toLowerCase (l ++ h ++ r) = sanitizeHeader toLowerCase h.
Proof.
  intros Hl Hr.
  assert (Nl := whitespace_no_colon Hl). assert (Nr := whitespace_no_colon Hr).
  assert (Et : trim (l ++ h ++ r) = trim h).
  { now rewrite trim_whitespace_l, trim_whitespace_r. }
  destruct (In_colon_dec h) as [Hc|Hc].
  - apply sanitizeHeader_ext.
    + now rewrite Et.
    + rewrite !in_app_iff. tauto.
    + rewrite beforeColon_app_l, beforeColon_app_r by assumption.
      now apply trim_whitespace_l.
    + rewrite afterColon_app_l, afterColon_app_r by assumption.
      now apply trim_whitespace_r.
  - assert (Hc' : ~ In colon (l ++ h ++ r)) by (rewrite !in_app_iff; tauto).
    rewrite !sanitizeHeader_unfold, Et.
    destruct (trim h); [reflexivity|].
    destruct (In_colon_dec (l ++ h ++ r)), (In_colon_dec h); tauto || reflexivity.
Qed.

(** X3: nor does whitespace on either side of the first colon: a header
    written without the space after the colon, or with several, is
    sanitized like the one with none. *)
Theorem sanitizeHeader_colon_whitespace (n l1 l2 v : jsstring) :
  ~ In colon n -> whitespace l1 -> whitespace l2 ->
  sanitizeHeader toLowerCase (n ++ l1 ++ js ":" ++ l2 ++ v)
  = sanitizeHeader toLowerCase (n ++ js ":" ++ v).
Proof.
  intros Hn H1 H2.
  assert (N1 := whitespace_no_colon H1).
  assert (Ca : In colon (n ++ l1 ++ js ":" ++ l2 ++ v)).
  { rewrite !in_app_iff. right. right. left. now left. }
  assert (Cb : In colon (n ++ js ":" ++ v)).
  { rewrite !in_app_iff. right. left. now left. }
  apply sanitizeHeader_ext.
  - split; intros E; exfalso.
    + apply trim_keeps_colon in Ca. rewrite E in Ca. destruct Ca.
    + apply trim_keeps_colon in Cb. rewrite E in Cb. destruct Cb.
  - tauto.
  - assert (Ea : beforeColon (n ++ l1 ++ js ":" ++ l2 ++ v) = n ++ l1).
    { rewrite app_assoc.
      rewrite beforeColon_app_l by (rewrite in_app_iff; tauto).
      simpl. apply app_nil_r. }
    assert (Eb : beforeColon (n ++ js ":" ++ v) = n).
    { rewrite beforeColon_app_l by assumption. simpl. apply app_nil_r. }
    rewrite Ea, Eb. now apply trim_whitespace_r.
  - assert (Ea : afterColon (n ++ l1 ++ js ":" ++ l2 ++ v) = l2 ++ v).
    { rewrite app_assoc.
      rewrite afterColon_app_l by (rewrite in_app_iff; tauto). reflexivity. }
    assert (Eb : afterColon (n ++ js ":" ++ v) = v).
    { rewrite afterColon_app_l by assumption. reflexivity. }
    rewrite Ea, Eb. now apply trim_whitespace_l.
Qed.

End SanitizerShape.

(** ** The builders: what the additional headers become *)

Section AdditionalHeaders.

Variable toLowerCase : jsstring -> jsstring.

(** What the sanitizer accepts, it returns unchanged when asked again. *)
Lemma accepted_is_fixed (h s : jsstring) :
  sanitizeHeader toLowerCase h = Some s -> sanitizeHeader toLowerCase s = Some s.
Proof.
  intros H. apply sanitizeHeader_Some in H as (_ & Hn & Hv & Hl & ->).
  assert (Tn : trim (beforeColon (normalized h)) = trim (beforeColon h)).
  { fold (headerName (normalized h)). rewrite normalized_name. apply trim_idem. }
  assert (Tv : trim (afterColon (normalized h)) = trim (afterColon h)).
  { rewrite normalized_value.
    change (32%N :: trim (afterColon h)) with ([32%N] ++ trim (afterColon h)).
    rewrite trim_whitespace_l by (constructor; [reflexivity | constructor]).
    apply trim_idem. }
  assert (Es : normalized (normalized h) = normalized h).
  { unfold normalized at 1. now rewrite Tn, Tv. }
  rewrite <- Es at 2. apply sanitizeHeader_accepts.
  - unfold normalized. rewrite in_app_iff. right. now left.
  - now rewrite Tn.
  - now rewrite Tv.
  - now rewrite Tn.
Qed.

(** The name of an accepted header does not lowercase to
    [accept-encoding]. *)
Lemma accepted_name (h s : jsstring) :
  sanitizeHeader toLowerCase h = Some s ->
  toLowerCase (headerName s) <> js "accept-encoding".
Proof.
  intros H. apply sanitizeHeader_Some in H as (_ & _ & _ & Hl & ->).
  now rewrite normalized_name.
Qed.

Lemma sanitizedEntries_app (a b : list (jsstring * jsstring)) :
  sanitizedEntries toLowerCase (a ++ b)
  = sanitizedEntries toLowerCase a ++ sanitizedEntries toLowerCase b.
Proof.
  induction a as [|[k v] a IH]; [reflexivity|].
  cbn [app sanitizedEntries]. rewrite IH.
  destruct (sanitizeHeader toLowerCase (k ++ js ": " ++ v)); reflexivity.
Qed.

Lemma sanitizedEntries_In_inv (entries : list (jsstring * jsstring)) (h : jsstring) :
  In h (sanitizedEntries toLowerCase entries) ->
  exists k v, In (k, v) entries
              /\ sanitizeHeader toLowerCase (k ++ js ": " ++ v) = Some h.
Proof.
  induction entries as [|[k v] rest IH]; [intros []|].
  cbn [sanitizedEntries].
  destruct (sanitizeHeader toLowerCase (k ++ js ": " ++ v)) as [s|] eqn:E.
  - intros [<-|H].
    + exists k, v. split; [now left | assumption].
    + destruct (IH H) as (k' & v' & Hin & Hs). exists k', v'. split; [now right | assumption].
  - intros H. destruct (IH H) as (k' & v' & Hin & Hs).
    exists k', v'. split; [now right | assumption].
Qed.

Lemma sanitizedEntries_length (entries : list (jsstring * jsstring)) :
  (length (sanitizedEntries toLowerCase entries) <= length entries)%nat.
Proof.
  induction entries as [|[k v] rest IH]; [reflexivity|].
  cbn [sanitizedEntries length].
  destruct (sanitizeHeader toLowerCase (k ++ js ": " ++ v)); simpl; lia.
Qed.

(** X4: the list of [buildHeaders] is, first, between one and three
    headers passed through as given, without trimming: Accept with the
    given value or [application/json], then Authorization with the token
    (after [Bearer ] unless it starts with it) when the token is not
    empty, then Cookie with the cookies when they are not empty; and then
    the sanitized additional entries, at most one header per entry, each
    of them in the normal form of the sanitizer and none of them named
    [accept-encoding]. *)
Theorem buildHeaders_layout (o : BuildHeadersOptions) :
  exists fixed rest,
    buildHeaders toLowerCase o = fixed ++ rest
    /\ fixed
       = [js "Accept: " ++ orElse (accept o) (js "application/json")]
           ++ match authToken o with
              | Some (c :: t) =>
                  [if startsWith (c :: t) (js "Bearer ")
                   then js "Authorization: " ++ c :: t
                   else js "Authorization: Bearer " ++ c :: t]
              | _ => []
              end
           ++ match cookies o with
              | Some (c :: k) => [js "Cookie: " ++ c :: k]
              | _ => []
              end
    /\ (1 <= length fixed <= 3)%nat
    /\ rest = sanitizedEntries toLowerCase (withDefault (additionalHeaders o) [])
    /\ (length rest <= length (withDefault (additionalHeaders o) []))%nat
    /\ Forall (fun h => sanitizeHeader toLowerCase h = Some h
                        /\ toLowerCase (headerName h) <> js "accept-encoding")
              rest.
Proof.
  exists ([js "Accept: " ++ orElse (accept o) (js "application/json")]
            ++ authorizationHeader o ++ cookieHeader o),
         (sanitizedEntries toLowerCase (withDefault (additionalHeaders o) [])).
  split; [rewrite buildHeaders_eq, <- !app_assoc; reflexivity|].
  split.
  { unfold authorizationHeader, cookieHeader, bearer.
    destruct (authToken o) as [[|c t]|]; destruct (cookies o) as [[|d k]|];
      try reflexivity;
      destruct (startsWith (c :: t) (js "Bearer ")); reflexivity. }
  split.
  { unfold authorizationHeader, cookieHeader.
    destruct (authToken o) as [[|c t]|]; destruct (cookies o) as [[|d k]|];
      simpl; lia. }
  split; [reflexivity|].
  split; [apply sanitizedEntries_length|].
  apply Forall_forall. intros h Hh.
  apply sanitizedEntries_In_inv in Hh as (k & v & _ & Hs). split.
  - exact (accepted_is_fixed _ Hs).
  - exact (@accepted_name _ _ Hs).
Qed.

(** The header of an entry whose key is a bare name. *)
Lemma bare_entry_header (k v : jsstring) :
  bareKey k -> k <> [] -> trim v <> [] ->
  toLowerCase k <> js "accept-encoding" ->
  sanitizeHeader toLowerCase (k ++ js ": " ++ v) = Some (k ++ js ": " ++ trim v).
Proof.
  intros [Tk Nk] Hk Hv Hl.
  assert (Eb : beforeColon (k ++ js ": " ++ v) = k).
  { rewrite beforeColon_app_l by assumption. simpl. apply app_nil_r. }
  assert (Ea : afterColon (k ++ js ": " ++ v) = [32%N] ++ v).
  { rewrite afterColon_app_l by assumption. reflexivity. }
  assert (Ws : whitespace [32%N]) by (constructor; [reflexivity | constructor]).
  rewrite sanitizeHeader_accepts.
  - unfold normalized. rewrite Eb, Ea, Tk. now rewrite trim_whitespace_l.
  - rewrite in_app_iff. right. now left.
  - now rewrite Eb, Tk.
  - rewrite Ea. now rewrite trim_whitespace_l.
  - now rewrite Eb, Tk.
Qed.

(** X5: an additional entry whose key is a bare name (trimmed, without a
    colon, not empty, not [accept-encoding]) and whose value is not blank
    is emitted as the key, a colon, a space and the trimmed value. *)
Theorem buildHeaders_emits_entry (o : BuildHeadersOptions)
    (entries : list (jsstring * jsstring)) (k v : jsstring) :
  additionalHeaders o = Some entries ->
  In (k, v) entries ->
  bareKey k -> k <> [] -> trim v <> [] ->
  toLowerCase k <> js "accept-encoding" ->
  In (k ++ js ": " ++ trim v) (buildHeaders toLowerCase o).
Proof.
  intros Ho Hin Hb Hk Hv Hl. rewrite buildHeaders_eq, Ho. cbn [withDefault].
  rewrite !in_app_iff. do 3 right.
  apply sanitizedEntries_In with (k := k) (v := v); [assumption|].
  now apply bare_entry_header.
Qed.

(** An entry the sanitizer refuses: a key without a colon that is blank or
    named [accept-encoding], or a blank value. *)
Lemma refused_entry (k v : jsstring) :
  ~ In colon k ->
  whitespace k \/ whitespace v
  \/ toLowerCase (trim k) = js "accept-encoding" ->
  sanitizeHeader toLowerCase (k ++ js ": " ++ v) = None.
Proof.
  intros Nk H.
  assert (Eb : beforeColon (k ++ js ": " ++ v) = k).
  { rewrite beforeColon_app_l by assumption. simpl. apply app_nil_r. }
  assert (Ea : afterColon (k ++ js ": " ++ v) = [32%N] ++ v).
  { rewrite afterColon_app_l by assumption. reflexivity. }
  assert (Ws : whitespace [32%N]) by (constructor; [reflexivity | constructor]).
  destruct (sanitizeHeader toLowerCase (k ++ js ": " ++ v)) as [s|] eqn:E;
    [|reflexivity].
  apply sanitizeHeader_Some in E as (_ & Hn & Hv & Hl & _).
  rewrite Eb in Hn, Hl. rewrite Ea, trim_whitespace_l in Hv by assumption.
  destruct H as [H|[H|H]].
  - apply trim_nil in H. contradiction.
  - apply trim_nil in H. contradiction.
  - contradiction.
Qed.

(** X6: such an entry is dropped without a trace: the list is the one
    built without it. *)
Theorem buildHeaders_drops_entry (o : BuildHeadersOptions)
    (before after : list (jsstring * jsstring)) (k v : jsstring) :
  ~ In colon k ->
  whitespace k \/ whitespace v
  \/ toLowerCase (trim k) = js "accept-encoding" ->
  buildHeaders toLowerCase (withEntries o (before ++ (k, v) :: after))
  = buildHeaders toLowerCase (withEntries o (before ++ after)).
Proof.
  intros Nk H. rewrite !buildHeaders_eq.
  unfold withEntries, authorizationHeader, cookieHeader.
  cbn [accept authToken cookies additionalHeaders withDefault].
  rewrite !sanitizedEntries_app. cbn [sanitizedEntries].
  now rewrite (@refused_entry k v Nk H).
Qed.

End AdditionalHeaders.

(** ** The conversion of a header object *)

Section ConversionProperties.

Variable toLowerCase : jsstring -> jsstring.

Lemma conversion_loop (skip : list jsstring)
    (headers : list (jsstring * jsstring)) (acc : list jsstring) :
  fold_left
    (fun result '(name, value) =>
       if has skip (toLowerCase name) then result
       else if startsWith name (js ":") then result
       else
         let sanitized := sanitizeHeader toLowerCase (name ++ js ": " ++ value) in
         if truthy sanitized then push result (orElse sanitized []) else result)
    headers acc
  = acc ++ sanitizedEntries toLowerCase
             (filter (fun e => negb (has skip (toLowerCase (fst e)))
                               && negb (startsWith (fst e) (js ":")))
                     headers).
Proof.
  revert acc. induction headers as [|[name value] rest IH]; intros acc.
  - simpl. now rewrite app_nil_r.
  - cbn [fold_left filter fst]. rewrite IH.
    destruct (has skip (toLowerCase name)); cbn [negb andb]; [reflexivity|].
    destruct (startsWith name (js ":")); cbn [negb]; [reflexivity|].
    cbn [sanitizedEntries]. cbv zeta. rewrite sanitized_truthy.
    destruct (sanitizeHeader toLowerCase (name ++ js ": " ++ value)) as [s|] eqn:E.
    + rewrite (@sanitized_orElse toLowerCase _ _ E). unfold push.
      now rewrite <- app_assoc.
    + reflexivity.
Qed.

Lemma headersObjectToArray_eq (headers : list (jsstring * jsstring))
    (options : option SkipOptions) :
  headersObjectToArray toLowerCase headers options
  = sanitizedEntries toLowerCase (kept toLowerCase options headers).
Proof. unfold headersObjectToArray. cbv zeta. now rewrite conversion_loop. Qed.

(** X7: the conversion emits what [buildHeaders] emits after its Accept
    header for the entries that are not skipped, in the same order. *)
Theorem headersObjectToArray_as_builder (headers : list (jsstring * jsstring))
    (options : option SkipOptions) :
  buildHeaders toLowerCase (withEntries noOptions (kept toLowerCase options headers))
  = js "Accept: application/json"
      :: headersObjectToArray toLowerCase headers options.
Proof. rewrite buildHeaders_eq, headersObjectToArray_eq. reflexivity. Qed.

(** Where a converted header comes from. *)
Lemma converted_origin (headers : list (jsstring * jsstring))
    (options : option SkipOptions) (h : jsstring) :
  In h (headersObjectToArray toLowerCase headers options) ->
  exists k v, In (k, v) headers
              /\ ~ In (toLowerCase k) (skipSet options)
              /\ sanitizeHeader toLowerCase (k ++ js ": " ++ v) = Some h.
Proof.
  rewrite headersObjectToArray_eq. intros H.
  apply sanitizedEntries_In_inv in H as (k & v & Hin & Hs).
  unfold kept in Hin. apply filter_In in Hin as [Hin Hk]. cbn [fst] in Hk.
  apply andb_true_iff in Hk as [Hk _]. apply negb_true_iff in Hk.
  exists k, v. repeat split; try assumption.
  intros Hc. apply has_spec in Hc. congruence.
Qed.

(** X8: every converted header comes from an entry that is not skipped, is
    in the normal form of the sanitizer, and is not named
    [accept-encoding], whatever the keys are. *)
Theorem headersObjectToArray_normal_form (headers : list (jsstring * jsstring))
    (options : option SkipOptions) (h : jsstring) :
  In h (headersObjectToArray toLowerCase headers options) ->
  (exists k v, In (k, v) headers
               /\ ~ In (toLowerCase k) (skipSet options)
               /\ sanitizeHeader toLowerCase (k ++ js ": " ++ v) = Some h)
  /\ sanitizeHeader toLowerCase h = Some h
  /\ toLowerCase (headerName h) <> js "accept-encoding".
Proof.
  intros H. destruct (converted_origin _ _ _ H) as (k & v & Hin & Hk & Hs).
  split; [|split].
  - now exists k, v.
  - exact (@accepted_is_fixed toLowerCase _ _ Hs).
  - exact (@accepted_name toLowerCase _ _ Hs).
Qed.

(** X9: when every key is a bare name, no converted header bears a name
    whose lowercase form is in the skip set: neither [connection] nor
    [host], nor a name the caller gave in lowercase. *)
Theorem headersObjectToArray_skips (headers : list (jsstring * jsstring))
    (options : option SkipOptions) (h : jsstring) :
  (forall k v, In (k, v) headers -> bareKey k) ->
  In h (headersObjectToArray toLowerCase headers options) ->
  ~ In (toLowerCase (headerName h)) (skipSet options).
Proof.
  intros Hb Hh.
  destruct (converted_origin _ _ _ Hh) as (k & v & Hin & Hk & Hs).
  destruct (Hb k v Hin) as [Tk Nk].
  destruct (@bare_key_header toLowerCase k v h Tk Nk Hs) as [_ ->]. assumption.
Qed.

(** The lowercase form of a name holds no capital ASCII letter. *)
Hypothesis toLowerCase_no_capital :
  forall s c, In c (toLowerCase s) -> isUpperAscii c = false.

(** X10: the names of [skipHeaders] are compared as given, not in
    lowercase: a name with a capital ASCII letter in it skips nothing. *)
Theorem skipHeaders_compared_verbatim (headers : list (jsstring * jsstring))
    (pre post : list jsstring) (e : jsstring) :
  existsb isUpperAscii e = true ->
  headersObjectToArray toLowerCase headers
    (Some {| skipHeaders := Some (pre ++ e :: post) |})
  = headersObjectToArray toLowerCase headers
      (Some {| skipHeaders := Some (pre ++ post) |}).
Proof.
  intros He. rewrite !headersObjectToArray_eq. f_equal.
  unfold kept. apply filter_ext. intros [k v]. cbn [fst]. f_equal. f_equal.
  unfold skipSet, has. cbn [skipHeaders withDefault].
  rewrite !existsb_app. cbn [existsb].
  assert (E : strEq (toLowerCase k) e = false).
  { apply strEq_false. intros <-.
    apply existsb_exists in He as (c & Hc & Hu).
    rewrite (toLowerCase_no_capital _ _ Hc) in Hu. discriminate Hu. }
  now rewrite E.
Qed.

End ConversionProperties.

Lemma asciiToLowerCase_no_capital (s : jsstring) (c : N) :
  In c (asciiToLowerCase s) -> isUpperAscii c = false.
Proof.
  unfold asciiToLowerCase. intros H. apply in_map_iff in H as (x & <- & _).
  unfold isUpperAscii.
  destruct (N.leb_spec 65 x), (N.leb_spec x 90); cbn [andb];
    apply andb_false_iff;
    repeat match goal with
           | |- context [(?a <=? ?b)%N] => destruct (N.leb_spec a b)
           end; try lia; auto.
Qed.

Lemma headersObjectToArray_skips_witness :
  ~ In (asciiToLowerCase (headerName (js "User-Agent: curl/8")))
       (skipSet (Some {| skipHeaders := Some [js "x-trace"] |})).
Proof.
  apply (@headersObjectToArray_skips asciiToLowerCase browserHeaders
           (Some {| skipHeaders := Some [js "x-trace"] |})).
  - intros k v [E|[E|[E|[]]]]; injection E as <- _; unfold bareKey;
      (split; [reflexivity | vm_compute; intuition discriminate]).
  - vm_compute. now left.
Defined.

Lemma headersObjectToArray_normal_form_witness :
  sanitizeHeader asciiToLowerCase (js "X-Trace: abc") = Some (js "X-Trace: abc").
Proof.
  refine (proj1 (proj2 (@headersObjectToArray_normal_form asciiToLowerCase
                          browserHeaders None (js "X-Trace: abc") _))).
  vm_compute. now left.
Defined.

Lemma skipHeaders_compared_verbatim_witness :
  headersObjectToArray asciiToLowerCase browserHeaders
    (Some {| skipHeaders := Some [js "X-Trace"] |})
  = headersObjectToArray asciiToLowerCase browserHeaders
      (Some {| skipHeaders := Some [] |}).
Proof.
  apply (@skipHeaders_compared_verbatim asciiToLowerCase
           asciiToLowerCase_no_capital browserHeaders [] [] (js "X-Trace")).
  reflexivity.
Defined.

Lemma sanitizeHeader_normal_form_witness :
  trim (js "Host: example.com:8080") = js "Host: example.com:8080"
  /\ headerName (js "Host: example.com:8080") = js "Host".
Proof.
  destruct (@sanitizeHeader_normal_form asciiToLowerCase
              (js " Host :example.com:8080 ") (js "Host: example.com:8080")
              eq_refl) as (Ht & Hn & _).
  split; [exact Ht | exact Hn].
Defined.

Lemma sanitizeHeader_outer_whitespace_witness :
  sanitizeHeader asciiToLowerCase (js "  " ++ js "X-Id: 7" ++ [9; 13; 10]%N)
  = sanitizeHeader asciiToLowerCase (js "X-Id: 7").
Proof.
  apply sanitizeHeader_outer_whitespace;
    repeat (constructor; try reflexivity).
Defined.

Lemma sanitizeHeader_colon_whitespace_witness :
  sanitizeHeader asciiToLowerCase
    (js "Authorization" ++ js " " ++ js ":" ++ js "   " ++ js "Bearer t")
  = sanitizeHeader asciiToLowerCase (js "Authorization" ++ js ":" ++ js "Bearer t").
Proof.
  apply sanitizeHeader_colon_whitespace.
  - vm_compute. intuition discriminate.
  - repeat (constructor; try reflexivity).
  - repeat (constructor; try reflexivity).
Defined.

Lemma buildHeaders_emits_entry_witness :
  In (js "X-Trace" ++ js ": " ++ trim (js "  abc "))
     (buildHeaders asciiToLowerCase (withEntries noOptions traceEntries)).
Proof.
  apply (@buildHeaders_emits_entry asciiToLowerCase
           (withEntries noOptions traceEntries) traceEntries).
  - reflexivity.
  - now left.
  - split; [reflexivity | vm_compute; intuition discriminate].
  - discriminate.
  - discriminate.
  - discriminate.
Defined.

Lemma buildHeaders_drops_entry_witness :
  buildHeaders asciiToLowerCase
    (withEntries noOptions ([(js "X-Trace", js "  abc ")] ++ (js "X-Empty", js "   ") :: []))
  = buildHeaders asciiToLowerCase
      (withEntries noOptions ([(js "X-Trace", js "  abc ")] ++ [])).
Proof.
  apply buildHeaders_drops_entry.
  - vm_compute. intuition discriminate.
  - right. left. repeat (constructor; try reflexivity).
Defined.

(** ** The redaction-aware builder: headers and descriptor *)

Section RedactionShape.

Variable toLowerCase : jsstring -> jsstring.

(** X11: the redaction-aware builder returns the very headers of
    [buildHeaders] for the same four fields; the two name lists bear on the
    descriptor only. *)
Theorem redaction_builder_headers (options : RedactionOptions) :
  hwr_headers (buildHeadersWithRedaction toLowerCase options)
  = buildHeaders toLowerCase (base options).
Proof. rewrite buildHeadersWithRedaction_eq. reflexivity. Qed.

(** X12: the names listed are the names of the classified headers that
    are to be redacted, in the order of emission and with repetitions
    kept; the result holds no descriptor when there is none, and otherwise
    one descriptor, whose list is not empty. *)
Theorem redaction_descriptor (options : RedactionOptions) :
  let r := buildHeadersWithRedaction toLowerCase options in
  redactionNames r
  = filter (shouldRedact toLowerCase options)
           (map fst (classified toLowerCase options))
  /\ ((redactionNames r = [] /\ hwr_redaction r = [])
      \/ (redactionNames r <> []
          /\ hwr_redaction r
             = [ {| request := Some {| headers := Some (redactionNames r) |} |} ])).
Proof.
  cbv zeta. rewrite redactionNames_eq. split; [reflexivity|].
  rewrite buildHeadersWithRedaction_eq. cbn [hwr_redaction].
  destruct (listed toLowerCase options) as [|n names].
  - left. now split.
  - right. split; [discriminate | reflexivity].
Qed.

End RedactionShape.

(** X21: when every key of the additional headers is a bare name (trimmed,
    without a colon), every name the descriptor lists is the name of a
    returned header: some returned header is that name, a colon, a space
    and a value. *)
Theorem redaction_names_present (toLowerCase : jsstring -> jsstring)
    (options : RedactionOptions) :
  (forall k v, In (k, v) (withDefault (additionalHeaders (base options)) []) ->
               trim k = k /\ ~ In colon k) ->
  listedArePresent (buildHeadersWithRedaction toLowerCase options).
Proof.
  intros Hk n Hn. rewrite redactionNames_eq in Hn. unfold listed in Hn.
  apply filter_In in Hn as [Hn _]. rewrite classified_names in Hn.
  rewrite buildHeadersWithRedaction_eq, buildHeaders_eq. cbn [hwr_headers].
  unfold authorizationHeader, cookieHeader.
  rewrite !in_app_iff in Hn. destruct Hn as [Hn|[Hn|Hn]].
  - destruct (authToken (base options)) as [[|c t]|]; cbn [truthy In] in Hn;
      try contradiction.
    destruct Hn as [<-|[]]. exists (bearer (c :: t)).
    rewrite !in_app_iff. right. left. now left.
  - destruct (cookies (base options)) as [[|c t]|]; cbn [truthy In] in Hn;
      try contradiction.
    destruct Hn as [<-|[]]. exists (c :: t).
    rewrite !in_app_iff. right. right. left. now left.
  - apply in_map_iff in Hn as ([k v] & <- & Hin). cbn [fst].
    unfold accepted in Hin. apply filter_In in Hin as [Hin Ht]. cbn [fst snd] in Ht.
    destruct (sanitizeHeader toLowerCase (k ++ js ": " ++ v)) as [s|] eqn:Hs;
      [|discriminate Ht].
    destruct (Hk k v Hin) as [Tk Nk].
    destruct (@bare_key_header toLowerCase k v s Tk Nk Hs) as [-> _].
    exists (trim (32%N :: v)). rewrite !in_app_iff. do 3 right.
    now apply sanitizedEntries_In with (k := k) (v := v).
Qed.

Lemma redaction_names_present_witness :
  listedArePresent
    (buildHeadersWithRedaction asciiToLowerCase
       {| base := withEntries noOptions [(js "X-Api-Key", js "k")];
          sensitiveHeaders := None; excludeFromRedaction := None |}).
Proof.
  apply redaction_names_present.
  intros k v [E|[]]. injection E as <- _.
  split; [reflexivity | vm_compute; intuition discriminate].
Defined.

(** ** Effects: sequencing *)

Lemma runs_bind_inv {A B : Type} (c : io A) (f : A -> io B)
    (tr : list event) (out : outcome B) :
  runs (bind c f) tr out ->
  (exists e, runs c tr (Threw e) /\ out = Threw e)
  \/ (exists a tr1 tr2,
        runs c tr1 (Returned a) /\ runs (f a) tr2 out /\ tr = tr1 ++ tr2).
Proof.
  revert tr out.
  induction c as [a|e|chunk k IH|p k IH|p k IH|p data k IH|k IH|url init k IH];
    intros tr out H; cbn [bind] in H.
  - right. exists a, [], tr. repeat split; [constructor | assumption].
  - run_step H. left. exists e. split; [constructor | reflexivity].
  - run_step H.
    match goal with R : runs _ _ _ |- _ => apply IH in R as [(e & R & ->)|(a & t1 & t2 & R1 & R2 & ->)] end.
    + left. exists e. split; [now constructor | reflexivity].
    + right. exists a, (EvStdout chunk :: t1), t2. repeat split; [now constructor | assumption].
  - run_step H.
    match goal with R : runs _ _ _ |- _ => apply IH in R as [(e & R & ->)|(a & t1 & t2 & R1 & R2 & ->)] end.
    + left. exists e. split; [now constructor | reflexivity].
    + right. exists a, (EvExists p b :: t1), t2. repeat split; [now constructor | assumption].
  - run_step H.
    + match goal with R : runs _ _ _ |- _ => apply IH in R as [(e & R & ->)|(a & t1 & t2 & R1 & R2 & ->)] end.
      * left. exists e. split; [now constructor | reflexivity].
      * right. exists a, (EvMkdir p true :: t1), t2. repeat split; [now constructor | assumption].
    + left. exists RuntimeError. split; [constructor | reflexivity].
  - run_step H.
    + match goal with R : runs _ _ _ |- _ => apply IH in R as [(e & R & ->)|(a & t1 & t2 & R1 & R2 & ->)] end.
      * left. exists e. split; [now constructor | reflexivity].
      * right. exists a, (EvWrite p data true :: t1), t2. repeat split; [now constructor | assumption].
    + left. exists RuntimeError. split; [constructor | reflexivity].
  - run_step H.
    match goal with R : runs _ _ _ |- _ => apply IH in R as [(e & R & ->)|(a & t1 & t2 & R1 & R2 & ->)] end.
    + left. exists e. split; [now constructor | reflexivity].
    + right. exists a, (EvNow iso :: t1), t2. repeat split; [now constructor | assumption].
  - run_step H.
    + match goal with R : runs _ _ _ |- _ => apply IH in R as [(e & R & ->)|(a & t1 & t2 & R1 & R2 & ->)] end.
      * left. exists e. split; [now constructor | reflexivity].
      * right. exists a, (EvFetch url init (Some r) :: t1), t2.
        repeat split; [now constructor | assumption].
    + left. exists RuntimeError. split; [constructor | reflexivity].
Qed.

Lemma runs_bind_throw {A B : Type} (c : io A) (f : A -> io B)
    (tr : list event) (e : exn) :
  runs c tr (Threw e) -> runs (bind c f) tr (Threw e).
Proof.
  intros H. remember (@Threw A e) as out eqn:E.
  induction H; cbn [bind]; try discriminate E;
    try (injection E as <-); constructor; auto.
Qed.

Lemma runs_bind_ret {A B : Type} (c : io A) (f : A -> io B)
    (tr1 tr2 : list event) (a : A) (out : outcome B) :
  runs c tr1 (Returned a) -> runs (f a) tr2 out ->
  runs (bind c f) (tr1 ++ tr2) out.
Proof.
  intros H1 H2. remember (Returned a) as o eqn:E.
  induction H1; cbn [bind app]; try discriminate E.
  - injection E as ->. assumption.
  - constructor; auto.
  - constructor; auto.
  - constructor; auto.
  - constructor; auto.
  - constructor; auto.
  - constructor; auto.
Qed.

(** ** The proof client: one request per call *)

Section CallProperties.

Variable credentials : VouchCredentials.

Lemma generate_runs (request : WebProofRequest) (tr : list event)
    (out : outcome WebProof) :
  runs (generateWebProof credentials request) tr out <->
  exists answer,
    tr = [EvFetch PROVE_URL
            (callInit credentials (stringify (requestBody request) 0)) answer]
    /\ out = callOutcome (js "Vouch API error (") answer.
Proof.
  unfold generateWebProof, callOutcome, responseJson. cbn [bind fetch]. split.
  - intros H. run_step H.
    + destruct (ok r) eqn:Hok; cbn [negb] in *.
      * destruct (json r) eqn:Hj; run_next; exists (Some r);
          rewrite Hok, Hj; split; reflexivity.
      * run_next. exists (Some r). rewrite Hok. split; reflexivity.
    + exists None. now split.
  - intros ([r|] & -> & ->).
    + apply run_fetch. destruct (ok r); cbn [negb].
      * destruct (json r); constructor.
      * constructor.
    + apply run_fetch_fails.
Qed.

Lemma verify_runs (proof : WebProof) (tr : list event)
    (out : outcome VerificationResult) :
  runs (verifyWebProof credentials proof) tr out <->
  exists answer,
    tr = [EvFetch VERIFY_URL (callInit credentials (stringify proof 0)) answer]
    /\ out = callOutcome (js "Verification API error (") answer.
Proof.
  unfold verifyWebProof, callOutcome, responseJson. cbn [bind fetch]. split.
  - intros H. run_step H.
    + destruct (ok r) eqn:Hok; cbn [negb] in *.
      * destruct (json r) eqn:Hj; run_next; exists (Some r);
          rewrite Hok, Hj; split; reflexivity.
      * run_next. exists (Some r). rewrite Hok. split; reflexivity.
    + exists None. now split.
  - intros ([r|] & -> & ->).
    + apply run_fetch. destruct (ok r); cbn [negb].
      * destruct (json r); constructor.
      * constructor.
    + apply run_fetch_fails.
Qed.

(** X13: a call of the service makes exactly one request and nothing
    else: a POST to the prove (verify) address with the JSON content type,
    the client identifier and the bearer token, whose body is the request
    descriptor (the proof) in compact JSON.  There is no second attempt.
    The call returns the parsed body of a success answer as it is, throws
    the labelled error for any other status, and fails with the runtime
    when the request cannot be made or the body is not JSON. *)
Theorem one_request_per_call (request : WebProofRequest) (proof : WebProof)
    (tr : list event) (out : outcome JSONValue) :
  (runs (generateWebProof credentials request) tr out <->
   exists answer,
     tr = [EvFetch PROVE_URL
             (callInit credentials (stringify (requestBody request) 0)) answer]
     /\ out = callOutcome (js "Vouch API error (") answer)
  /\ (runs (verifyWebProof credentials proof) tr out <->
      exists answer,
        tr = [EvFetch VERIFY_URL (callInit credentials (stringify proof 0)) answer]
        /\ out = callOutcome (js "Verification API error (") answer).
Proof. split; [apply generate_runs | apply verify_runs]. Qed.

End CallProperties.

(** ** Generate and verify in one step *)

Section GenerateAndVerifyProperties.

Variable JSON_parse : jsstring -> option JSONValue.
Variable ToString : JSONValue -> jsstring.
Variable credentials : VouchCredentials.

(** The last step makes no effect. *)
Lemma extract_runs (v : VerificationResult) (tr : list event)
    (out : outcome JSONValue) :
  runs (extractResponseData JSON_parse ToString v) tr out ->
  tr = []
  /\ ((v = JNull /\ out = Threw RuntimeError)
      \/ (v <> JNull
          /\ out = Returned (dataOfBody JSON_parse ToString (responseBody v)))).
Proof.
  unfold extractResponseData. intros H.
  destruct v; run_step H; (split; [reflexivity|]);
    try (left; now split); right; (split; [discriminate | reflexivity]).
Qed.

(** Every run of the helper: the prove request; when it succeeded, the
    verify request for the proof it gave; when that succeeded too, the
    extraction of the response data. *)
Lemma generateAndVerify_runs (request : WebProofRequest) (tr : list event)
    (out : outcome ProofAndVerification) :
  runs (generateAndVerifyProof JSON_parse ToString credentials request) tr out ->
  exists a1,
    let first := EvFetch PROVE_URL
                   (callInit credentials (stringify (requestBody request) 0)) a1 in
    match callOutcome (js "Vouch API error (") a1 with
    | Threw e => tr = [first] /\ out = Threw e
    | Returned p =>
        exists a2,
          tr = [first;
                EvFetch VERIFY_URL (callInit credentials (stringify p 0)) a2]
          /\ match callOutcome (js "Verification API error (") a2 with
             | Threw e => out = Threw e
             | Returned v =>
                 (v = JNull /\ out = Threw RuntimeError)
                 \/ (v <> JNull
                     /\ out = Returned
                               {| pv_proof := p; pv_verification := v;
                                  responseData :=
                                    dataOfBody JSON_parse ToString (responseBody v) |})
             end
    end.
Proof.
  unfold generateAndVerifyProof. intros H.
  apply runs_bind_inv in H as [(e & H & ->)|(p & t1 & t2 & H1 & H & ->)].
  { apply generate_runs in H as (a1 & -> & E). exists a1. cbv zeta.
    rewrite <- E. now split. }
  apply generate_runs in H1 as (a1 & -> & E1). exists a1. cbv zeta. rewrite <- E1.
  apply runs_bind_inv in H as [(e & H & ->)|(v & t3 & t4 & H2 & H & ->)].
  { apply verify_runs in H as (a2 & -> & E). exists a2.
    split; [reflexivity|]. now rewrite <- E. }
  apply verify_runs in H2 as (a2 & -> & E2). exists a2. rewrite <- E2.
  apply runs_bind_inv in H as [(e & H & ->)|(d & t5 & t6 & H3 & H & ->)].
  - destruct (extract_runs _ H) as (-> & [[-> D]|(_ & D)]); [|discriminate D].
    injection D as ->. split; [reflexivity|]. left. now split.
  - destruct (extract_runs _ H3) as (-> & [[_ D]|(Hv & D)]); [discriminate D|].
    injection D as ->. run_step H. split; [reflexivity|]. right. now split.
Qed.

(** X14: the helper never asks for a verification unless the generation
    succeeded: when the prove request fails in any way, it is the only
    effect of the run and its failure is the result; when it succeeds, the
    one further effect is the verify request, and its body is the very
    proof the service returned, in compact JSON. *)
Theorem verify_follows_generate (request : WebProofRequest) (tr : list event)
    (out : outcome ProofAndVerification) :
  runs (generateAndVerifyProof JSON_parse ToString credentials request) tr out ->
  exists a1,
    let first := EvFetch PROVE_URL
                   (callInit credentials (stringify (requestBody request) 0)) a1 in
    match callOutcome (js "Vouch API error (") a1 with
    | Threw e => tr = [first] /\ out = Threw e
    | Returned p =>
        exists a2,
          tr = [first;
                EvFetch VERIFY_URL (callInit credentials (stringify p 0)) a2]
    end.
Proof.
  intros H. apply generateAndVerify_runs in H as (a1 & H). exists a1.
  cbv zeta in *. destruct (callOutcome _ a1); [|assumption].
  destruct H as (a2 & E & _). now exists a2.
Qed.

(** X15: what the helper returns is what the service answered: the proof
    is the body of a success answer to the prove request, the verification
    the body of a success answer to the verify request, and it is not
    [null]. *)
Theorem result_is_what_was_answered (request : WebProofRequest)
    (tr : list event) (res : ProofAndVerification) :
  runs (generateAndVerifyProof JSON_parse ToString credentials request) tr (Returned res) ->
  exists r1 r2 init1 init2,
    tr = [EvFetch PROVE_URL init1 (Some r1); EvFetch VERIFY_URL init2 (Some r2)]
    /\ ok r1 = true /\ json r1 = Some (pv_proof res)
    /\ ok r2 = true /\ json r2 = Some (pv_verification res)
    /\ pv_verification res <> JNull.
Proof.
  intros H. apply generateAndVerify_runs in H as (a1 & H). cbv zeta in H.
  unfold callOutcome in H at 1.
  destruct a1 as [r1|]; [|destruct H as [_ H]; discriminate H].
  destruct (ok r1) eqn:O1; [|destruct H as [_ H]; discriminate H].
  destruct (json r1) as [p|] eqn:J1; [|destruct H as [_ H]; discriminate H].
  destruct H as (a2 & -> & H). unfold callOutcome in H.
  destruct a2 as [r2|]; [|discriminate H].
  destruct (ok r2) eqn:O2; [|discriminate H].
  destruct (json r2) as [v|] eqn:J2; [|discriminate H].
  destruct H as [[_ H]|(Hv & H)]; [discriminate H|].
  injection H as ->. cbn [pv_proof pv_verification].
  exists r1, r2. do 2 eexists. repeat split; try reflexivity; assumption.
Qed.

(** X16: the response data is [null] unless the verification holds a
    truthy [response.body]; a body that is a string is parsed, and when it
    is not JSON it is handed back as it is: the helper does not fail on
    it. *)
Theorem responseData_of_body (request : WebProofRequest)
    (tr : list event) (res : ProofAndVerification) :
  runs (generateAndVerifyProof JSON_parse ToString credentials request) tr (Returned res) ->
  match responseBody (pv_verification res) with
  | Some (JString (c :: s)) =>
      responseData res = match JSON_parse (c :: s) with
                         | Some data => data
                         | None => JString (c :: s)
                         end
  | Some b => truthyValue b = false -> responseData res = JNull
  | None => responseData res = JNull
  end.
Proof.
  intros H. apply generateAndVerify_runs in H as (a1 & H). cbv zeta in H.
  destruct (callOutcome _ a1) as [p|e]; [|destruct H as [_ H]; discriminate H].
  destruct H as (a2 & _ & H).
  destruct (callOutcome _ a2) as [v|e]; [|discriminate H].
  destruct H as [[_ H]|(Hv & H)]; [discriminate H|].
  injection H as ->. cbn [pv_verification responseData].
  destruct (responseBody v) as [body|]; [|reflexivity].
  destruct body as [|bt|bn|[|bc bs]|bl|bm];
    cbn [dataOfBody truthyValue truthy toStringValue];
    try (intros F; now rewrite ?F); reflexivity.
Qed.

(** X17: a verify answer with a success status whose body is the JSON
    [null] makes the helper fail, although both calls succeeded: it reads
    a property of the verification. *)
Theorem null_verification_fails (request : WebProofRequest)
    (init1 init2 : RequestInit) (r1 r2 : Response)
    (out : outcome ProofAndVerification) :
  ok r2 = true ->
  json r2 = Some JNull ->
  runs (generateAndVerifyProof JSON_parse ToString credentials request)
       [EvFetch PROVE_URL init1 (Some r1); EvFetch VERIFY_URL init2 (Some r2)] out ->
  out = Threw RuntimeError.
Proof.
  intros O2 J2 H. apply generateAndVerify_runs in H as (a1 & H). cbv zeta in H.
  destruct (callOutcome _ a1) as [p|e] eqn:E1; [|destruct H as [H _]; discriminate H].
  destruct H as (a2 & E & H). injection E as _ _ _ <-.
  unfold callOutcome in H. rewrite J2, O2 in H.
  destruct H as [[_ ->]|(Hv & _)]; [reflexivity | contradiction].
Qed.

End GenerateAndVerifyProperties.

Lemma verify_follows_generate_witness :
  let c := generateAndVerifyProof parseNothing renderNothing
             sampleCredentials sampleRequest in
  exists a1,
    let first := EvFetch PROVE_URL
                   (callInit sampleCredentials
                      (stringify (requestBody sampleRequest) 0)) a1 in
    match callOutcome (js "Vouch API error (") a1 with
    | Threw e => fst (exec refusingWorld c) = [first]
                 /\ snd (exec refusingWorld c) = Threw e
    | Returned p =>
        exists a2,
          fst (exec refusingWorld c)
          = [first;
             EvFetch VERIFY_URL (callInit sampleCredentials (stringify p 0)) a2]
    end.
Proof.
  intros c.
  exact (@verify_follows_generate parseNothing renderNothing sampleCredentials
           sampleRequest _ _ (exec_runs refusingWorld c)).
Defined.

Lemma result_is_what_was_answered_witness :
  let c := generateAndVerifyProof parseNothing renderNothing
             sampleCredentials sampleRequest in
  exists r1 r2 init1 init2,
    fst (exec (serviceWorld sampleVerification) c)
      = [EvFetch PROVE_URL init1 (Some r1); EvFetch VERIFY_URL init2 (Some r2)]
    /\ ok r1 = true /\ json r1 = Some sampleProof
    /\ ok r2 = true /\ json r2 = Some sampleVerification
    /\ sampleVerification <> JNull.
Proof.
  intros c.
  exact (@result_is_what_was_answered parseNothing renderNothing sampleCredentials
           sampleRequest (fst (exec (serviceWorld sampleVerification) c))
           {| pv_proof := sampleProof; pv_verification := sampleVerification;
              responseData := JString (js "not json") |}
           (exec_runs (serviceWorld sampleVerification) c)).
Defined.

Lemma responseData_of_body_witness :
  responseData
    {| pv_proof := sampleProof; pv_verification := sampleVerification;
       responseData := JString (js "not json") |}
  = JString (js "not json").
Proof.
  exact (@responseData_of_body parseNothing renderNothing sampleCredentials
           sampleRequest
           (fst (exec (serviceWorld sampleVerification)
                   (generateAndVerifyProof parseNothing renderNothing
                      sampleCredentials sampleRequest)))
           {| pv_proof := sampleProof; pv_verification := sampleVerification;
              responseData := JString (js "not json") |}
           (exec_runs (serviceWorld sampleVerification) _)).
Defined.

Lemma null_verification_fails_witness :
  snd (exec (serviceWorld JNull)
         (generateAndVerifyProof parseNothing renderNothing
            sampleCredentials sampleRequest))
  = Threw RuntimeError.
Proof.
  apply (@null_verification_fails parseNothing renderNothing sampleCredentials
           sampleRequest
           (callInit sampleCredentials (stringify (requestBody sampleRequest) 0))
           (callInit sampleCredentials (stringify sampleProof 0))
           (answerWith sampleProof) (answerWith JNull)).
  - reflexivity.
  - reflexivity.
  - exact (exec_runs (serviceWorld JNull) _).
Defined.

(** ** The artifact sink: every mode, every run *)

Section SinkRuns.

Variable path_join : jsstring -> jsstring -> jsstring.

(** The three failing runs of the file mode and its returning run. *)
Lemma file_mode_runs (proof : WebProof) (verification : VerificationResult)
    (output : OutputOptions) (dir : jsstring) (tr : list event)
    (out : outcome ProofArtifactOutput) :
  mode output = file -> outputDir output = Some dir -> dir <> [] ->
  runs (outputProofArtifacts path_join proof verification output) tr out ->
  exists present,
    let dirCheck := [EvExists dir present]
                      ++ (if present then [] else [EvMkdir dir true]) in
    (present = false /\ tr = [EvExists dir false; EvMkdir dir false]
     /\ out = Threw RuntimeError)
    \/ exists iso,
         let stem := withDefault (prefix output) (js "proof") in
         let indent : N := if withDefault (pretty output) true then 2%N else 0%N in
         let p := path_join dir (stem ++ js "-" ++ replaceColonDot iso ++ js ".json") in
         let v := path_join dir
                    (stem ++ js "-verification-" ++ replaceColonDot iso ++ js ".json") in
         let both := truthyValue verification
                     && withDefault (includeVerification output) true in
         (tr = dirCheck ++ [EvNow iso; EvWrite p (stringify proof indent) false]
          /\ out = Threw RuntimeError)
         \/ (both = true
             /\ tr = dirCheck
                       ++ [EvNow iso; EvWrite p (stringify proof indent) true;
                           EvWrite v (stringify verification indent) false]
             /\ out = Threw RuntimeError)
         \/ (tr = dirCheck
                    ++ [EvNow iso; EvWrite p (stringify proof indent) true]
                    ++ (if both then [EvWrite v (stringify verification indent) true]
                        else [])
             /\ out = Returned
                        {| out_mode := file;
                           out_paths := Some {| proofPath := p; verificationPath := v |};
                           out_json := None |}).
Proof.
  intros Hm Hd Hne H. unfold outputProofArtifacts in H. rewrite Hm, Hd in H.
  destruct dir as [|d dir]; [congruence|]. cbn [truthy negb orElse] in H.
  cbn [bind existsSync] in H. run_step H. exists b.
  set (both := truthyValue verification
               && withDefault (includeVerification output) true) in *.
  destruct b; cbn [negb] in *.
  - right. run_next. exists iso. cbv zeta. fold both. run_next.
    + destruct both.
      * run_next.
        -- run_next. right. right. now split.
        -- right. left. now split.
      * run_next. right. right. now split.
    + left. now split.
  - run_next.
    + right. run_next. exists iso. cbv zeta. fold both. run_next.
      * destruct both.
        -- run_next.
           ++ run_next. right. right. now split.
           ++ right. left. now split.
        -- run_next. right. right. now split.
      * left. now split.
    + left. now split.
Qed.

(** A failure of the file mode, once the directory is given, is the
    runtime's. *)
Lemma file_mode_error (proof : WebProof) (verification : VerificationResult)
    (output : OutputOptions) (dir : jsstring) (tr : list event) (e : exn) :
  mode output = file -> outputDir output = Some dir -> dir <> [] ->
  runs (outputProofArtifacts path_join proof verification output) tr (Threw e) ->
  e = RuntimeError.
Proof.
  intros Hm Hd Hne H.
  destruct (file_mode_runs _ _ _ Hm Hd Hne H) as (present & Hr). cbv zeta in Hr.
  destruct Hr as [(_ & _ & E)|(iso & [(_ & E)|[(_ & _ & E)|(_ & E)]])];
    try discriminate E; now injection E as <-.
Qed.

(** X18: with an output directory, the file mode throws no error of its
    own: it fails only where the runtime refuses the directory or a write.
    Nothing is undone: when the write of the verification is refused, the
    proof file written just before stays. *)
Theorem file_mode_failures (proof : WebProof) (verification : VerificationResult)
    (output : OutputOptions) (dir : jsstring) (tr : list event) (e : exn) :
  mode output = file -> outputDir output = Some dir -> dir <> [] ->
  runs (outputProofArtifacts path_join proof verification output) tr (Threw e) ->
  e = RuntimeError
  /\ (exists tr' refused,
        tr = tr' ++ [refused]
        /\ (refused = EvMkdir dir false
            \/ exists f data, refused = EvWrite f data false))
  /\ (written tr = []
      \/ exists iso,
           written tr
           = [path_join dir (withDefault (prefix output) (js "proof") ++ js "-"
                               ++ replaceColonDot iso ++ js ".json")]
           /\ truthyValue verification = true).
Proof.
  intros Hm Hd Hne H.
  destruct (file_mode_runs _ _ _ Hm Hd Hne H) as (present & Hr). cbv zeta in Hr.
  destruct Hr as [(-> & -> & E)|(iso & [(-> & E)|[(Hb & -> & E)|(_ & E)]])];
    try discriminate E; injection E as <-; (split; [reflexivity|]).
  - split; [|now left]. exists [EvExists dir false]. eexists. split; [reflexivity|].
    now left.
  - split.
    + eexists ([EvExists dir present] ++ (if present then [] else [EvMkdir dir true])
               ++ [EvNow iso]). eexists.
      split; [rewrite <- !app_assoc; reflexivity|]. right. now do 2 eexists.
    + left. destruct present; reflexivity.
  - split.
    + eexists ([EvExists dir present] ++ (if present then [] else [EvMkdir dir true])
               ++ [EvNow iso; EvWrite _ _ true]). eexists.
      split; [rewrite <- !app_assoc; reflexivity|]. right. now do 2 eexists.
    + right. exists iso. split; [destruct present; reflexivity|].
      now apply andb_true_iff in Hb as [Hb _].
Qed.

(** X19: the directory is asked for first, and created only when the
    runtime says it is absent. *)
Theorem file_mode_directory (proof : WebProof) (verification : VerificationResult)
    (output : OutputOptions) (dir : jsstring) (tr : list event)
    (out : outcome ProofArtifactOutput) :
  mode output = file -> outputDir output = Some dir -> dir <> [] ->
  runs (outputProofArtifacts path_join proof verification output) tr out ->
  exists present rest,
    tr = EvExists dir present :: rest
    /\ (present = true -> forall d done, ~ In (EvMkdir d done) rest)
    /\ (present = false -> exists done rest', rest = EvMkdir dir done :: rest'
                                              /\ forall d b, ~ In (EvMkdir d b) rest').
Proof.
  intros Hm Hd Hne H.
  destruct (file_mode_runs _ _ _ Hm Hd Hne H) as (present & Hr). cbv zeta in Hr.
  exists present.
  destruct Hr as [(-> & -> & _)|(iso & Hr)].
  { eexists. split; [reflexivity|]. split; [discriminate|]. intros _.
    exists false, []. split; [reflexivity | intros d b []]. }
  assert (G : forall tail, (forall d b, ~ In (EvMkdir d b) tail) ->
            tr = [EvExists dir present]
                   ++ (if present then [] else [EvMkdir dir true]) ++ tail ->
            exists rest,
              tr = EvExists dir present :: rest
              /\ (present = true -> forall d done, ~ In (EvMkdir d done) rest)
              /\ (present = false ->
                  exists done rest', rest = EvMkdir dir done :: rest'
                                     /\ forall d b, ~ In (EvMkdir d b) rest')).
  { intros tail Ht ->. destruct present; cbn [app].
    - exists tail. split; [reflexivity|]. split; [intros _; exact Ht | discriminate].
    - exists (EvMkdir dir true :: tail). split; [reflexivity|].
      split; [discriminate|]. intros _. exists true, tail. now split. }
  destruct Hr as [(-> & _)|[(_ & -> & _)|(-> & _)]].
  - eapply G; [|rewrite <- app_assoc; reflexivity].
    intros d b [E|[E|[]]]; discriminate E.
  - eapply G; [|rewrite <- app_assoc; reflexivity].
    intros d b [E|[E|[E|[]]]]; discriminate E.
  - eapply G; [|rewrite <- !app_assoc; reflexivity].
    intros d b Hin. cbn [app] in Hin.
    destruct Hin as [E|[E|Hin]]; try discriminate E.
    destruct (truthyValue verification && _); [destruct Hin as [E|[]]; discriminate E | destruct Hin].
Qed.

End SinkRuns.

(** ** The wrappers of the sink *)

Section WrapperProperties.

Variable path_join : jsstring -> jsstring -> jsstring.

(** X20: [outputToStdout] does one thing in every run: it writes the
    combined object as JSON and a line feed on standard output, and
    returns.  It touches no file and cannot fail. *)
Theorem outputToStdout_runs (proof : WebProof) (verification : VerificationResult)
    (include indented : option bool) (tr : list event) (out : outcome unit) :
  runs (outputToStdout path_join proof verification include indented) tr out <->
  tr = [EvStdout
          (stringify
             (if withDefault include true
              then JObject [(js "proof", proof); (js "verification", verification)]
              else JObject [(js "proof", proof)])
             (if withDefault indented true then 2%N else 0%N)
           ++ [10%N])]
  /\ out = Returned tt.
Proof.
  unfold outputToStdout, outputProofArtifacts.
  cbn [mode includeVerification pretty bind stdoutWrite]. split.
  - intros H. run_step H. run_next. now split.
  - intros [-> ->]. repeat constructor.
Qed.

(** [persistProofArtifacts] with an empty directory name fails at once
    with the configuration error, before any effect. *)
Lemma persist_requires_directory (proof : WebProof)
    (verification : VerificationResult) (stem : option jsstring)
    (tr : list event) (out : outcome (option ProofArtifactPaths)) :
  runs (persistProofArtifacts path_join proof verification [] stem) tr out <->
  tr = [] /\ out = Threw (Error (js "outputDir is required for file output mode")).
Proof.
  unfold persistProofArtifacts, outputProofArtifacts.
  cbn [mode outputDir truthy negb bind]. split.
  - intros H. run_step H. now split.
  - intros [-> ->]. constructor.
Qed.

(** X22: when [persistProofArtifacts] returns, the paths are defined (the
    assertion on [result.paths] holds), the proof was written at the proof
    path with two-space indentation, and the verification was written at
    the verification path exactly when it is truthy. *)
Theorem persist_returns_paths (proof : WebProof)
    (verification : VerificationResult) (dir : jsstring) (stem : option jsstring)
    (tr : list event) (r : option ProofArtifactPaths) :
  runs (persistProofArtifacts path_join proof verification dir stem) tr (Returned r) ->
  exists paths,
    r = Some paths
    /\ In (EvWrite (proofPath paths) (stringify proof 2) true) tr
    /\ written tr
       = proofPath paths
           :: (if truthyValue verification then [verificationPath paths] else []).
Proof.
  unfold persistProofArtifacts. intros H.
  apply runs_bind_inv in H as [(e & _ & E)|(res & t1 & t2 & H1 & H2 & ->)];
    [discriminate E|].
  run_step H2. rewrite app_nil_r.
  apply file_mode_run in H1 as (d & iso & present & Hd & _ & Hr); [|reflexivity].
  cbn [outputDir prefix pretty includeVerification withDefault] in Hd, Hr.
  injection Hd as <-. destruct Hr as [-> ->]. cbn [out_paths].
  eexists. split; [reflexivity|]. cbn [proofPath verificationPath].
  rewrite andb_true_r. split.
  - rewrite !in_app_iff. right. right. left. right. now left.
  - destruct present; destruct (truthyValue verification); reflexivity.
Qed.

End WrapperProperties.

Section ArtifactNames.

Variable path_join : jsstring -> jsstring -> jsstring.

Lemma replaceColonDot_safe (iso : jsstring) :
  ~ In 58%N (replaceColonDot iso) /\ ~ In 46%N (replaceColonDot iso)
  /\ length (replaceColonDot iso) = length iso.
Proof.
  unfold replaceColonDot. rewrite length_map. repeat split; try reflexivity.
  - intros H. apply in_map_iff in H as (c & E & _).
    destruct (N.eqb_spec c 58); destruct (N.eqb_spec c 46); cbn [orb] in E;
      try discriminate E; congruence.
  - intros H. apply in_map_iff in H as (c & E & _).
    destruct (N.eqb_spec c 58); destruct (N.eqb_spec c 46); cbn [orb] in E;
      try discriminate E; congruence.
Qed.

(** X23: the two files of a round are named after one timestamp, the
    time of the runtime in ISO form with every colon and dot replaced by a
    hyphen (so it holds neither and has the same length), and their names
    differ. *)
Theorem artifact_file_names (proof : WebProof) (verification : VerificationResult)
    (output : OutputOptions) (tr : list event) (r : ProofArtifactOutput) :
  mode output = file ->
  runs (outputProofArtifacts path_join proof verification output) tr (Returned r) ->
  exists dir iso,
    let stem := withDefault (prefix output) (js "proof") in
    let stamp := replaceColonDot iso in
    let proofName := stem ++ js "-" ++ stamp ++ js ".json" in
    let verificationName := stem ++ js "-verification-" ++ stamp ++ js ".json" in
    In (EvNow iso) tr
    /\ out_paths r = Some {| proofPath := path_join dir proofName;
                             verificationPath := path_join dir verificationName |}
    /\ ~ In 58%N stamp /\ ~ In 46%N stamp /\ length stamp = length iso
    /\ proofName <> verificationName.
Proof.
  intros Hm H.
  apply file_mode_run in H as (dir & iso & present & _ & _ & Hr); [|assumption].
  cbv zeta in Hr. destruct Hr as [-> ->]. exists dir, iso. cbv zeta.
  destruct (replaceColonDot_safe iso) as (Hc & Hd & Hl).
  repeat split; try assumption.
  - rewrite !in_app_iff. right. right. left. now left.
  - intros E. apply (f_equal (@length N)) in E.
    rewrite !length_app in E. simpl in E. lia.
Qed.

End ArtifactNames.

(** ** The command line of the examples *)

Lemma length_induction {A : Type} (P : list A -> Prop) :
  (forall l, (forall l', (length l' < length l)%nat -> P l') -> P l) ->
  forall l, P l.
Proof.
  intros step l.
  assert (G : forall n l', (length l' < n)%nat -> P l').
  { induction n as [|n IH]; intros l' Hl; [lia|].
    apply step. intros l'' Hl''. apply IH. lia. }
  apply (G (S (length l))). lia.
Qed.

(** The loop, one argument at a time. *)
Lemma parseLoop_cons (arg : jsstring) (rest : list jsstring)
    (o : CliOptions) (pos : list jsstring) :
  parseLoop (arg :: rest) o pos =
  if isStdoutFlag arg then parseLoop rest (setOutputMode o stdout) pos
  else if isQuietFlag arg then parseLoop rest (setQuiet o true) pos
  else if takesValue arg then
    match rest with
    | next :: rest' =>
        parseLoop rest'
          (setOutputDir o (Some (orElse (Some next) (js "./proofs")))) pos
    | [] => (setOutputDir o (Some (js "./proofs")), pos)
    end
  else if isAssignment arg then
    parseLoop rest (setOutputDir o (nth_error (splitUnit arg 61%N) 1)) pos
  else if isPositional arg then parseLoop rest o (push pos arg)
  else parseLoop rest o pos.
Proof. reflexivity. Qed.

Lemma startsWith_prefix (s p : jsstring) :
  startsWith s p = true <-> exists x, s = p ++ x.
Proof.
  revert s. induction p as [|c p IH]; intros s; simpl.
  - split; [intros _; now exists s | reflexivity].
  - destruct s as [|d s]; [split; [discriminate | intros (x & E); discriminate]|].
    rewrite andb_true_iff, N.eqb_eq, IH. split.
    + intros (-> & x & ->). now exists x.
    + intros (x & E). injection E as -> ->. split; [reflexivity | now exists x].
Qed.

(** The kinds of argument exclude one another. *)
Lemma stdoutFlag_only (arg : jsstring) :
  isStdoutFlag arg = true ->
  isQuietFlag arg = false /\ takesValue arg = false
  /\ isAssignment arg = false /\ isPositional arg = false.
Proof.
  unfold isStdoutFlag. intros H. apply orb_true_iff in H as [H|H];
    apply strEq_spec in H; subst arg; repeat split.
Qed.

Lemma quietFlag_only (arg : jsstring) :
  isQuietFlag arg = true ->
  isStdoutFlag arg = false /\ takesValue arg = false
  /\ isAssignment arg = false /\ isPositional arg = false.
Proof.
  unfold isQuietFlag. intros H. apply orb_true_iff in H as [H|H];
    apply strEq_spec in H; subst arg; repeat split.
Qed.

Lemma takesValue_only (arg : jsstring) :
  takesValue arg = true ->
  isStdoutFlag arg = false /\ isQuietFlag arg = false
  /\ isAssignment arg = false /\ isPositional arg = false.
Proof.
  unfold takesValue. intros H. apply orb_true_iff in H as [H|H];
    apply strEq_spec in H; subst arg; repeat split.
Qed.

Lemma assignment_only (arg : jsstring) :
  isAssignment arg = true ->
  isStdoutFlag arg = false /\ isQuietFlag arg = false
  /\ takesValue arg = false /\ isPositional arg = false.
Proof.
  unfold isAssignment. intros H. apply startsWith_prefix in H as (x & ->).
  repeat split.
Qed.

Lemma positional_only (arg : jsstring) :
  isPositional arg = true ->
  isStdoutFlag arg = false /\ isQuietFlag arg = false
  /\ takesValue arg = false /\ isAssignment arg = false.
Proof.
  unfold isPositional. intros H. apply negb_true_iff in H.
  assert (G : forall lit, startsWith lit (js "-") = true -> strEq arg lit = false).
  { intros lit Hl. apply strEq_false. intros ->. congruence. }
  unfold isStdoutFlag, isQuietFlag, takesValue, isAssignment.
  rewrite !G by reflexivity. repeat split.
  destruct (startsWith arg (js "--output-dir=")) eqn:E; [|reflexivity].
  apply startsWith_prefix in E as (x & ->). discriminate H.
Qed.

(** The loop over arguments none of which takes a value. *)
Lemma parseLoop_plain (argv : list jsstring) (o : CliOptions) (pos : list jsstring) :
  forallb (fun a => negb (takesValue a)) argv = true ->
  let r := parseLoop argv o pos in
  outputMode (fst r) = (if existsb isStdoutFlag argv then stdout else outputMode o)
  /\ quiet (fst r) = quiet o || existsb isQuietFlag argv
  /\ command (fst r) = command o
  /\ args (fst r) = args o
  /\ snd r = pos ++ filter isPositional argv.
Proof.
  revert o pos. induction argv as [|arg rest IH]; intros o pos H; cbv zeta.
  - cbn. rewrite orb_false_r, app_nil_r. repeat split.
  - cbn [forallb] in H. apply andb_true_iff in H as [Hv H].
    apply negb_true_iff in Hv. rewrite parseLoop_cons, Hv.
    cbn [existsb filter].
    destruct (isStdoutFlag arg) eqn:E1.
    { destruct (stdoutFlag_only _ E1) as (-> & _ & _ & ->).
      destruct (IH (setOutputMode o stdout) pos H) as (Hm & Hq & Hc & Ha & Hp).
      cbn [orb]. rewrite Hm, Hq, Hc, Ha, Hp. cbn.
      destruct (existsb isStdoutFlag rest); repeat split. }
    destruct (isQuietFlag arg) eqn:E2.
    { destruct (quietFlag_only _ E2) as (_ & _ & _ & ->).
      destruct (IH (setQuiet o true) pos H) as (Hm & Hq & Hc & Ha & Hp).
      cbn [orb]. rewrite Hm, Hq, Hc, Ha, Hp. cbn.
      rewrite orb_true_r. repeat split. }
    cbn [orb].
    destruct (isAssignment arg) eqn:E4.
    { destruct (assignment_only _ E4) as (_ & _ & _ & ->).
      destruct (IH (setOutputDir o (nth_error (splitUnit arg 61) 1)) pos H)
        as (Hm & Hq & Hc & Ha & Hp).
      rewrite Hm, Hq, Hc, Ha, Hp. repeat split. }
    destruct (isPositional arg) eqn:E5.
    + destruct (IH o (push pos arg) H) as (Hm & Hq & Hc & Ha & Hp).
      rewrite Hm, Hq, Hc, Ha, Hp. unfold push. rewrite <- app_assoc.
      repeat split.
    + destruct (IH o pos H) as (Hm & Hq & Hc & Ha & Hp).
      rewrite Hm, Hq, Hc, Ha, Hp. repeat split.
Qed.

(** X24: when no argument is [--output-dir] or [-o], the arguments are
    read independently: the mode is stdout exactly when [--stdout] or
    [--json] occurs, quiet is set exactly when [--quiet] or [-q] occurs,
    the command is the first argument that does not begin with a hyphen
    ([help] when there is none) and the arguments of the command are the
    other ones that do not; any other argument that begins with a hyphen
    is ignored. *)
Theorem parseArgs_flags (argv : list jsstring) :
  forallb (fun a => negb (takesValue a)) argv = true ->
  outputMode (parseArgs argv) = (if existsb isStdoutFlag argv then stdout else file)
  /\ quiet (parseArgs argv) = existsb isQuietFlag argv
  /\ (command (parseArgs argv), args (parseArgs argv))
     = match filter isPositional argv with
       | first :: others => (first, others)
       | [] => (js "help", [])
       end.
Proof.
  intros H. destruct (parseLoop_plain argv cliDefaults [] H) as (Hm & Hq & Hc & Ha & Hp).
  unfold parseArgs. destruct (parseLoop argv cliDefaults []) as [o pos].
  cbn [fst snd app] in *. subst pos.
  destruct (filter isPositional argv) as [|first others].
  - rewrite Hm, Hq, Hc, Ha. repeat split.
  - cbn [setCommand outputMode quiet command args]. rewrite Hm, Hq. repeat split.
Qed.

Lemma parseArgs_flags_witness :
  outputMode (parseArgs [js "oauth"; js "--json"; js "token"; js "--verbose"; js "-q"])
    = stdout
  /\ quiet (parseArgs [js "oauth"; js "--json"; js "token"; js "--verbose"; js "-q"])
     = true
  /\ (command (parseArgs [js "oauth"; js "--json"; js "token"; js "--verbose"; js "-q"]),
      args (parseArgs [js "oauth"; js "--json"; js "token"; js "--verbose"; js "-q"]))
     = (js "oauth", [js "token"]).
Proof.
  exact (@parseArgs_flags
           [js "oauth"; js "--json"; js "token"; js "--verbose"; js "-q"] eq_refl).
Defined.

Lemma splitUnit_head (x : jsstring) (sep : N) :
  exists pieces, splitUnit x sep = untilUnit sep x :: pieces.
Proof.
  induction x as [|c x (pieces & IH)]; cbn [splitUnit untilUnit].
  - now exists [].
  - destruct (c =? sep)%N; [now eexists|]. rewrite IH. now eexists.
Qed.

(** The directory of an argument [--output-dir=x]: the text of [x] before
    its first equals sign. *)
Lemma assignment_dir (arg : jsstring) :
  isAssignment arg = true ->
  exists x, arg = js "--output-dir=" ++ x
            /\ nth_error (splitUnit arg 61%N) 1 = Some (untilUnit 61%N x).
Proof.
  unfold isAssignment. intros H. apply startsWith_prefix in H as (x & ->).
  exists x. split; [reflexivity|].
  destruct (splitUnit_head x 61%N) as (pieces & E).
  cbn [js map list_ascii_of_string app splitUnit].
  cbn. rewrite E. reflexivity.
Qed.

Lemma parseArgs_mode_dir (argv : list jsstring) :
  outputMode (parseArgs argv) = outputMode (fst (parseLoop argv cliDefaults []))
  /\ cli_outputDir (parseArgs argv)
     = cli_outputDir (fst (parseLoop argv cliDefaults [])).
Proof.
  unfold parseArgs. destruct (parseLoop argv cliDefaults []) as [o [|first others]];
    now split.
Qed.

Lemma parseLoop_invariants (argv : list jsstring) :
  forall o pos,
    outputMode o <> return_ -> cli_outputDir o <> None ->
    outputMode (fst (parseLoop argv o pos)) <> return_
    /\ cli_outputDir (fst (parseLoop argv o pos)) <> None.
Proof.
  induction argv as [argv IH] using length_induction. intros o pos Hm Hd.
  destruct argv as [|arg rest]; [now split|].
  rewrite parseLoop_cons.
  destruct (isStdoutFlag arg).
  { apply IH; cbn; [lia | discriminate | assumption]. }
  destruct (isQuietFlag arg).
  { apply IH; cbn; [lia | assumption | assumption]. }
  destruct (takesValue arg).
  { destruct rest as [|next rest'].
    - cbn. split; [assumption | discriminate].
    - apply IH; cbn; [lia | assumption | discriminate]. }
  destruct (isAssignment arg) eqn:E.
  { destruct (assignment_dir _ E) as (x & _ & ->).
    apply IH; cbn; [lia | assumption | discriminate]. }
  destruct (isPositional arg); apply IH; cbn; auto.
Qed.

(** X25: whatever the arguments, the command line selects the file or the
    stdout mode, never the return mode, and the output directory it hands
    over is defined. *)
Theorem parseArgs_invariants (argv : list jsstring) :
  outputMode (parseArgs argv) <> return_
  /\ exists dir, cli_outputDir (parseArgs argv) = Some dir.
Proof.
  destruct (parseArgs_mode_dir argv) as [-> E].
  destruct (parseLoop_invariants argv cliDefaults []) as [Hm Hd];
    [discriminate | discriminate |].
  split; [assumption|]. rewrite E.
  destruct (cli_outputDir (fst (parseLoop argv cliDefaults []))) as [dir|];
    [now exists dir | contradiction].
Qed.

Lemma parseLoop_dir_nonempty (argv : list jsstring) :
  forall o pos,
    forallb (fun a => negb (isAssignment a)) argv = true ->
    truthy (cli_outputDir o) = true ->
    truthy (cli_outputDir (fst (parseLoop argv o pos))) = true.
Proof.
  induction argv as [argv IH] using length_induction. intros o pos Ha Hd.
  destruct argv as [|arg rest]; [assumption|].
  cbn [forallb] in Ha. apply andb_true_iff in Ha as [Hn Ha].
  apply negb_true_iff in Hn. rewrite parseLoop_cons, Hn.
  destruct (isStdoutFlag arg); [apply IH; cbn; auto|].
  destruct (isQuietFlag arg); [apply IH; cbn; auto|].
  destruct (takesValue arg).
  { destruct rest as [|next rest']; [reflexivity|].
    cbn [forallb] in Ha. apply andb_true_iff in Ha as [_ Ha].
    apply IH; cbn; [lia | assumption |]. destruct next; reflexivity. }
  destruct (isPositional arg); apply IH; cbn; auto.
Qed.

Section CommandLineAndSink.

Variable path_join : jsstring -> jsstring -> jsstring.

(** X26: unless an argument has the form [--output-dir=...], the output
    directory the command line hands over is not empty, so the sink called
    with it never throws an error of its own: it can only fail where the
    runtime refuses a file-system call. *)
Theorem cli_never_misconfigures (argv : list jsstring) (stem : jsstring)
    (proof : WebProof) (verification : VerificationResult)
    (tr : list event) (e : exn) :
  forallb (fun a => negb (isAssignment a)) argv = true ->
  runs (outputProofArtifacts path_join proof verification
          (cliOutput (parseArgs argv) stem)) tr (Threw e) ->
  truthy (cli_outputDir (parseArgs argv)) = true /\ e = RuntimeError.
Proof.
  intros Ha H.
  assert (Hd : truthy (cli_outputDir (parseArgs argv)) = true).
  { destruct (parseArgs_mode_dir argv) as [_ ->].
    now apply parseLoop_dir_nonempty. }
  split; [assumption|].
  assert (Hm : outputMode (parseArgs argv) <> return_).
  { destruct (parseArgs_mode_dir argv) as [-> _].
    apply parseLoop_invariants; discriminate. }
  destruct (outputMode (parseArgs argv)) eqn:Em; [| |contradiction].
  - destruct (cli_outputDir (parseArgs argv)) as [[|c dir]|] eqn:Ed;
      try discriminate Hd.
    refine (@file_mode_error path_join proof verification
              (cliOutput (parseArgs argv) stem) (c :: dir) tr e _ _ _ H).
    + exact Em.
    + exact Ed.
    + discriminate.
  - unfold outputProofArtifacts, cliOutput in H. cbn [mode] in H. rewrite Em in H.
    cbn [bind stdoutWrite] in H. run_step H. run_next.
Qed.

End CommandLineAndSink.

Lemma cli_never_misconfigures_witness :
  let c := outputProofArtifacts joinPlain sampleProof JNull
             (cliOutput (parseArgs [js "public"; js "-o"; js "out"])
                        (js "public-api")) in
  snd (exec readOnlyWorld c) = Threw RuntimeError
  /\ truthy (cli_outputDir (parseArgs [js "public"; js "-o"; js "out"])) = true.
Proof.
  intros c. split; [reflexivity|].
  exact (proj1 (@cli_never_misconfigures joinPlain
                  [js "public"; js "-o"; js "out"] (js "public-api")
                  sampleProof JNull (fst (exec readOnlyWorld c)) RuntimeError
                  eq_refl (exec_runs readOnlyWorld c))).
Defined.

Lemma parseLoop_app_plain (before rest : list jsstring) :
  forall o pos,
    forallb (fun a => negb (takesValue a)) before = true ->
    parseLoop (before ++ rest) o pos
    = parseLoop rest (fst (parseLoop before o pos)) (snd (parseLoop before o pos)).
Proof.
  induction before as [|arg before IH]; intros o pos H; [reflexivity|].
  cbn [forallb] in H. apply andb_true_iff in H as [Hv H].
  apply negb_true_iff in Hv. cbn [app]. rewrite !parseLoop_cons, Hv.
  destruct (isStdoutFlag arg); [now apply IH|].
  destruct (isQuietFlag arg); [now apply IH|].
  destruct (isAssignment arg); [now apply IH|].
  destruct (isPositional arg); now apply IH.
Qed.

(** Arguments that set no directory leave the directory as it is. *)
Lemma parseLoop_dir_kept (argv : list jsstring) :
  forall o pos,
    forallb (fun a => negb (takesValue a) && negb (isAssignment a)) argv = true ->
    cli_outputDir (fst (parseLoop argv o pos)) = cli_outputDir o.
Proof.
  induction argv as [|arg rest IH]; intros o pos H; [reflexivity|].
  cbn [forallb] in H. apply andb_true_iff in H as [Hv H].
  apply andb_true_iff in Hv as [Hv Ha].
  apply negb_true_iff in Hv. apply negb_true_iff in Ha.
  rewrite parseLoop_cons, Hv, Ha.
  destruct (isStdoutFlag arg); [now rewrite IH|].
  destruct (isQuietFlag arg); [now rewrite IH|].
  destruct (isPositional arg); now rewrite IH.
Qed.

(** X27: an argument [--output-dir=x] in flag position sets the directory
    to the text of [x] before its first equals sign, as long as no later
    argument sets it again: what follows a second equals sign is lost, and
    the directory is empty when nothing follows the first. *)
Theorem assignment_form (before after : list jsstring) (x : jsstring) :
  forallb (fun a => negb (takesValue a)) before = true ->
  forallb (fun a => negb (takesValue a) && negb (isAssignment a)) after = true ->
  cli_outputDir (parseArgs (before ++ (js "--output-dir=" ++ x) :: after))
  = Some (untilUnit 61%N x).
Proof.
  intros Hb Ha. destruct (parseArgs_mode_dir (before ++ (js "--output-dir=" ++ x) :: after))
    as [_ ->].
  rewrite parseLoop_app_plain by assumption.
  assert (E : isAssignment (js "--output-dir=" ++ x) = true).
  { apply startsWith_prefix. now exists x. }
  destruct (assignment_only _ E) as (E1 & E2 & E3 & _).
  rewrite parseLoop_cons, E1, E2, E3, E.
  rewrite parseLoop_dir_kept by assumption. cbn [cli_outputDir setOutputDir].
  destruct (assignment_dir _ E) as (y & Ey & ->).
  apply app_inv_head in Ey. now subst y.
Qed.

Lemma assignment_form_witness :
  cli_outputDir (parseArgs ([js "public"] ++ (js "--output-dir=" ++ js "a=b")
                              :: [js "--quiet"]))
  = Some (js "a").
Proof.
  exact (@assignment_form [js "public"] [js "--quiet"] (js "a=b") eq_refl eq_refl).
Defined.

Lemma parseLoop_sameButDir (argv : list jsstring) :
  forall o o' pos,
    sameButDir o o' ->
    sameButDir (fst (parseLoop argv o pos)) (fst (parseLoop argv o' pos))
    /\ snd (parseLoop argv o pos) = snd (parseLoop argv o' pos).
Proof.
  induction argv as [argv IH] using length_induction. intros o o' pos S.
  destruct argv as [|arg rest]; [now split|].
  assert (L : (length rest < length (arg :: rest))%nat) by (cbn; lia).
  destruct S as (Sc & Sm & Sq & Sa).
  rewrite !parseLoop_cons.
  destruct (isStdoutFlag arg).
  { apply (IH rest L). unfold sameButDir. cbn. auto. }
  destruct (isQuietFlag arg).
  { apply (IH rest L). unfold sameButDir. cbn. auto. }
  destruct (takesValue arg).
  { destruct rest as [|next rest'].
    - cbn. unfold sameButDir. cbn. auto.
    - apply IH; [cbn; lia|]. unfold sameButDir. cbn. auto. }
  destruct (isAssignment arg).
  { apply (IH rest L). unfold sameButDir. cbn. auto. }
  destruct (isPositional arg); apply (IH rest L); unfold sameButDir; auto.
Qed.

Lemma parseArgs_sameButDir (a b : list jsstring) :
  sameButDir (fst (parseLoop a cliDefaults [])) (fst (parseLoop b cliDefaults [])) ->
  snd (parseLoop a cliDefaults []) = snd (parseLoop b cliDefaults []) ->
  sameButDir (parseArgs a) (parseArgs b).
Proof.
  unfold parseArgs.
  destruct (parseLoop a cliDefaults []) as [oa pa].
  destruct (parseLoop b cliDefaults []) as [ob pb]. cbn [fst snd].
  intros (Sc & Sm & Sq & Sa) ->. destruct pb as [|first others];
    unfold sameButDir; cbn; auto.
Qed.

(** X28: the argument after [--output-dir] or [-o] is taken as the
    directory whatever it looks like: it is never read as a flag, a
    command or an argument of the command.  The directory is that argument,
    or [./proofs] when it is empty, as long as no later argument sets it
    again. *)
Theorem value_is_swallowed (before after : list jsstring) (flag x : jsstring) :
  forallb (fun a => negb (takesValue a)) before = true ->
  takesValue flag = true ->
  sameButDir (parseArgs (before ++ flag :: x :: after)) (parseArgs (before ++ after))
  /\ (forallb (fun a => negb (takesValue a) && negb (isAssignment a)) after = true ->
      cli_outputDir (parseArgs (before ++ flag :: x :: after))
      = Some (orElse (Some x) (js "./proofs"))).
Proof.
  intros Hb Hf.
  destruct (takesValue_only _ Hf) as (E1 & E2 & _ & _).
  assert (E : forall o pos,
             parseLoop (flag :: x :: after) o pos
             = parseLoop after
                 (setOutputDir o (Some (orElse (Some x) (js "./proofs")))) pos).
  { intros o pos. now rewrite parseLoop_cons, E1, E2, Hf. }
  split.
  - apply parseArgs_sameButDir; rewrite !parseLoop_app_plain, E by assumption;
      apply parseLoop_sameButDir; unfold sameButDir; cbn; auto.
  - intros Ha.
    destruct (parseArgs_mode_dir (before ++ flag :: x :: after)) as [_ ->].
    rewrite parseLoop_app_plain, E by assumption.
    now rewrite parseLoop_dir_kept by assumption.
Qed.

Lemma value_is_swallowed_witness :
  sameButDir (parseArgs ([js "public"] ++ js "-o" :: js "--stdout" :: [js "-q"]))
             (parseArgs ([js "public"] ++ [js "-q"])).
Proof.
  exact (proj1 (@value_is_swallowed [js "public"] [js "-q"] (js "-o") (js "--stdout")
                  eq_refl eq_refl)).
Defined.

Lemma file_mode_failures_witness :
  let c := outputProofArtifacts joinPlain sampleProof sampleVerification
             (sampleOutput file (Some (js "proofs"))) in
  RuntimeError = RuntimeError
  /\ (exists tr' refused,
        fst (exec readOnlyWorld c) = tr' ++ [refused]
        /\ (refused = EvMkdir (js "proofs") false
            \/ exists f data, refused = EvWrite f data false))
  /\ (written (fst (exec readOnlyWorld c)) = []
      \/ exists iso,
           written (fst (exec readOnlyWorld c))
           = [joinPlain (js "proofs")
                (withDefault (prefix (sampleOutput file (Some (js "proofs"))))
                             (js "proof")
                 ++ js "-" ++ replaceColonDot iso ++ js ".json")]
           /\ truthyValue sampleVerification = true).
Proof.
  intros c.
  refine (@file_mode_failures joinPlain sampleProof sampleVerification
            (sampleOutput file (Some (js "proofs"))) (js "proofs")
            (fst (exec readOnlyWorld c)) RuntimeError eq_refl eq_refl _
            (exec_runs readOnlyWorld c)).
  discriminate.
Defined.

Lemma file_mode_directory_witness :
  let c := outputProofArtifacts joinPlain sampleProof sampleVerification
             (sampleOutput file (Some (js "proofs"))) in
  exists present rest,
    fst (exec sampleWorld c) = EvExists (js "proofs") present :: rest
    /\ (present = true -> forall d done, ~ In (EvMkdir d done) rest)
    /\ (present = false ->
        exists done rest', rest = EvMkdir (js "proofs") done :: rest'
                           /\ forall d b, ~ In (EvMkdir d b) rest').
Proof.
  intros c.
  refine (@file_mode_directory joinPlain sampleProof sampleVerification
            (sampleOutput file (Some (js "proofs"))) (js "proofs")
            (fst (exec sampleWorld c)) (snd (exec sampleWorld c))
            eq_refl eq_refl _ (exec_runs sampleWorld c)).
  discriminate.
Defined.

Lemma persist_returns_paths_witness :
  let c := persistProofArtifacts joinPlain sampleProof sampleVerification
             (js "proofs") None in
  exists paths,
    Some {| proofPath := js "proofs/proof-2026-01-02T03-04-05-678Z.json";
            verificationPath :=
              js "proofs/proof-verification-2026-01-02T03-04-05-678Z.json" |}
    = Some paths
    /\ In (EvWrite (proofPath paths) (stringify sampleProof 2) true)
          (fst (exec sampleWorld c))
    /\ written (fst (exec sampleWorld c))
       = proofPath paths
           :: (if truthyValue sampleVerification then [verificationPath paths] else []).
Proof.
  intros c.
  exact (@persist_returns_paths joinPlain sampleProof sampleVerification
           (js "proofs") None (fst (exec sampleWorld c)) _ (exec_runs sampleWorld c)).
Defined.

Lemma artifact_file_names_witness :
  let c := outputProofArtifacts joinPlain sampleProof sampleVerification
             (sampleOutput file (Some (js "proofs"))) in
  exists ts : jsstring,
    ts = js "2026-01-02T03-04-05-678Z" /\ ~ In 58%N ts /\ ~ In 46%N ts.
Proof.
  intros c.
  destruct (@artifact_file_names joinPlain sampleProof sampleVerification
              (sampleOutput file (Some (js "proofs")))
              (fst (exec sampleWorld c))
              {| out_mode := file;
                 out_paths :=
                   Some {| proofPath :=
                             js "proofs/proof-2026-01-02T03-04-05-678Z.json";
                           verificationPath :=
                             js "proofs/proof-verification-2026-01-02T03-04-05-678Z.json" |};
                 out_json := None |}
              eq_refl (exec_runs sampleWorld c))
    as (dir & iso & Hi & _ & Hc & Hd & _).
  destruct Hi as [E|[E|[E|[E|[E|[]]]]]]; try discriminate E.
  injection E as <-. exists (js "2026-01-02T03-04-05-678Z").
  split; [reflexivity|]. split; assumption.
Defined.

(** ** The token and the descriptor on the wire *)

Section TokenAndWire.

Variable toLowerCase : jsstring -> jsstring.

Lemma bearer_bearer (t : jsstring) : bearer (bearer t) = bearer t.
Proof.
  unfold bearer. destruct (startsWith t (js "Bearer ")) eqn:E.
  - now rewrite E.
  - reflexivity.
Qed.

Lemma bearer_not_empty (t : jsstring) : t <> [] -> bearer t <> [].
Proof.
  unfold bearer. destruct (startsWith t (js "Bearer ")); [auto | discriminate].
Qed.

(** X29: prefixing the token is idempotent: giving the builder the token
    it has already prefixed changes nothing, whatever the other fields. *)
Theorem bearer_prefix_idempotent (o : BuildHeadersOptions) (t : jsstring) :
  authToken o = Some t -> t <> [] ->
  buildHeaders toLowerCase (withToken o (bearer t)) = buildHeaders toLowerCase o.
Proof.
  intros Ho Ht. rewrite !buildHeaders_eq.
  unfold authorizationHeader, cookieHeader, withToken.
  cbn [authToken cookies accept additionalHeaders]. rewrite Ho.
  pose proof (bearer_not_empty Ht) as Hb.
  destruct (bearer t) as [|c b] eqn:E; [contradiction|].
  destruct t as [|d t]; [contradiction|].
  rewrite <- E, bearer_bearer. reflexivity.
Qed.

(** X30: the request made of the builder's result carries a [redaction]
    member exactly when some header is to be redacted; it is then an array
    of one object, whose [request.headers] is the list of names. *)
Theorem redaction_on_the_wire (options : RedactionOptions) (url method : jsstring) :
  let r := buildHeadersWithRedaction toLowerCase options in
  member (requestBody (requestOf url method r)) (js "redaction")
  = match redactionNames r with
    | [] => None
    | names =>
        Some (JArray [JObject [(js "request",
                                JObject [(js "headers", strings names)])]])
    end.
Proof.
  cbv zeta. rewrite redactionNames_eq, buildHeadersWithRedaction_eq.
  unfold requestOf, requestBody. cbn [maxRecvData redaction hwr_redaction hwr_headers
                                      req_url req_method req_headers].
  destruct (listed toLowerCase options) as [|n names]; reflexivity.
Qed.

End TokenAndWire.

Lemma bearer_prefix_idempotent_witness :
  buildHeaders asciiToLowerCase (withToken (withToken noOptions (js "abc")) (bearer (js "abc")))
  = buildHeaders asciiToLowerCase (withToken noOptions (js "abc")).
Proof.
  apply bearer_prefix_idempotent; [reflexivity | discriminate].
Defined.
